(** * swift_upload_runner/upload.py: the resumable upload proxy session

    A shallow embedding of [ResumableFileUploadProxy] and the properties of
    its session state machine: mode selection, resume discovery, the
    existence check, segmented ingestion with manifest finalisation, and the
    queue-fed single write of the monolithic mode. *)

From stdpp Require Import gmap strings list fin_maps.
From Stdlib Require Import ZArith String Ascii Init.Byte.
From Stdlib Require Import Sorting.Sorted.

Local Open Scope string_scope.
Local Open Scope Z_scope.

(* ===================================================================== *)
(** * Python values the module computes with                              *)
(* ===================================================================== *)

Module Py.

(** Text is a [str] whose code points are below 256: a [string] holds one
    [ascii] per code point. *)

(** Exceptions that can leave a method of the class.  The three [HTTP*]
    ones are the [aiohttp.web] exceptions the source raises by name; the
    others are raised by the interpreter. *)
Inductive exn :=
| KeyError (key : string)
| ValueError
| TypeError
| HTTPNotFound
| HTTPBadRequest
| HTTPRequestTimeout.

(** The status an [aiohttp.web] exception is sent with. *)
Definition status_code (e : exn) : option Z :=
  match e with
  | HTTPNotFound => Some 404
  | HTTPBadRequest => Some 400
  | HTTPRequestTimeout => Some 408
  | KeyError _ | ValueError | TypeError => None
  end.

Inductive outcome (A : Type) :=
| Return (a : A)
| Raise (e : exn).
Arguments Return {A} a.
Arguments Raise {A} e.

(** What the source writes after [await].  Calling a coroutine method
    gives a coroutine, which [await] runs to its result; the method itself,
    written without the call, is no awaitable, and [await] raises
    TypeError.  In both cases [a] is what the method returns when called. *)
Inductive awaited (A : Type) :=
| Coroutine (a : A)
| BoundMethod (a : A).
Arguments Coroutine {A} a.
Arguments BoundMethod {A} a.

Definition await {A} (x : awaited A) : outcome A :=
  match x with
  | Coroutine a => Return a
  | BoundMethod _ => Raise TypeError
  end.

(** [d[k]] on a dict. *)
Definition getitem {V} (d : gmap string V) (k : string) : outcome V :=
  match d !! k with
  | Some v => Return v
  | None => Raise (KeyError k)
  end.

(** ** str methods *)

(** Whitespace as [str.strip()] sees it: tab to carriage return, the four
    separators 28 to 31, the blank, and NEL and the no-break space. *)
Definition is_space (c : ascii) : bool :=
  let n := N_of_ascii c in
  ((9 <=? n) && (n <=? 13) || (28 <=? n) && (n <=? 32)
   || (n =? 133) || (n =? 160))%N.

Fixpoint lstrip_of (space : ascii → bool) (s : string) : string :=
  match s with
  | String c r => if space c then lstrip_of space r else s
  | EmptyString => EmptyString
  end.

Fixpoint rstrip_of (space : ascii → bool) (s : string) : string :=
  match s with
  | String c r =>
      match rstrip_of space r with
      | EmptyString => if space c then EmptyString else String c EmptyString
      | r' => String c r'
      end
  | EmptyString => EmptyString
  end.

Definition lstrip : string → string := lstrip_of is_space.
Definition rstrip : string → string := rstrip_of is_space.

(** [s.split(sep)] for a one-character separator: never an empty list. *)
Fixpoint split (sep : ascii) (s : string) : list string :=
  match s with
  | EmptyString => [EmptyString]
  | String c r =>
      if Ascii.eqb c sep then EmptyString :: split sep r
      else match split sep r with
           | h :: t => String c h :: t
           | [] => [String c EmptyString]
           end
  end.

(** [sub in s]. *)
Fixpoint contains (sub s : string) : bool :=
  String.prefix sub s ||
  match s with
  | String _ r => contains sub r
  | EmptyString => false
  end.

(** [s.split("/")[-1]] *)
Definition last_token (s : string) : string :=
  List.last (split "/" s) EmptyString.

(** ** int(str) *)

Definition is_digit (c : ascii) : bool :=
  let n := N_of_ascii c in ((48 <=? n) && (n <=? 57))%N.

Definition digit_val (c : ascii) : Z := Z.of_N (N_of_ascii c) - 48.

(** Decimal digits with single underscores allowed between digits;
    [prev] tells whether the previous character was a digit. *)
Fixpoint parse_digits (acc : Z) (prev : bool) (s : string) : option Z :=
  match s with
  | EmptyString => if prev then Some acc else None
  | String c r =>
      if is_digit c then parse_digits (10 * acc + digit_val c) true r
      else if Ascii.eqb c "_" && prev then parse_digits acc false r
      else None
  end.

(** Whitespace as [int] skips it around the number: the ASCII whitespace
    of C, and NEL and the no-break space, which it turns into blanks
    first.  The separators 28 to 31 are not among them. *)
Definition int_space (c : ascii) : bool :=
  let n := N_of_ascii c in
  ((9 <=? n) && (n <=? 13) || (n =? 32) || (n =? 133) || (n =? 160))%N.

Fixpoint count_digits (s : string) : nat :=
  match s with
  | EmptyString => O
  | String c r => if is_digit c then S (count_digits r) else count_digits r
  end.

(** The interpreter's default limit on the digits of a number read from
    text ([sys.get_int_max_str_digits()]). *)
Definition int_max_str_digits : nat := 4300.

(** [int(s)]: surrounding whitespace, an optional sign, then the digits,
    no more of them than the limit; anything else is a [ValueError]. *)
Definition int (s : string) : outcome Z :=
  let t := rstrip_of int_space (lstrip_of int_space s) in
  let r :=
    match t with
    | String c d =>
        if Ascii.eqb c "-" then Z.opp <$> parse_digits 0 false d
        else if Ascii.eqb c "+" then parse_digits 0 false d
        else parse_digits 0 false t
    | EmptyString => None
    end in
  match r with
  | Some z =>
      if (int_max_str_digits <? count_digits t)%nat then Raise ValueError
      else Return z
  | None => Raise ValueError
  end.

(** ** format(n, spec) *)

Definition digit_char (d : Z) : ascii := ascii_of_N (48 + Z.to_N d).

(** The [w] low decimal digits of [n], most significant first. *)
Fixpoint fixed_be (w : nat) (n : Z) : string :=
  match w with
  | O => EmptyString
  | S w' => String (digit_char (n / 10 ^ Z.of_nat w'))
                   (fixed_be w' (n mod 10 ^ Z.of_nat w'))
  end.

(** Number of decimal digits of [n >= 0] (at least one). *)
Fixpoint ndigits_aux (fuel : nat) (n : Z) : nat :=
  match fuel with
  | O => 1%nat
  | S f => if n <? 10 then 1%nat else S (ndigits_aux f (n / 10))
  end.

Definition ndigits (n : Z) : nat := ndigits_aux (Z.to_nat (Z.log2 n)) n.

(** [str(n)] for [n >= 0]. *)
Definition decimal (n : Z) : string := fixed_be (ndigits n) n.

Fixpoint zeros (k : nat) : string :=
  match k with
  | O => EmptyString
  | S k' => String "0" (zeros k')
  end.

(** [s.zfill]-style left padding to a minimum width. *)
Definition zfill (w : nat) (s : string) : string :=
  (zeros (w - String.length s) ++ s)%string.

Fixpoint blanks (k : nat) : string :=
  match k with
  | O => EmptyString
  | S k' => String " " (blanks k')
  end.

(** [str(n)] *)
Definition str (n : Z) : string :=
  if n <? 0 then String "-" (decimal (- n)) else decimal n.

(** A decimal number at a minimum width [w] (the sign counts): with the
    zero flag the zeros go between the sign and the digits, without it the
    number is moved to the right with blanks; wider numbers are printed in
    full. *)
Definition padded (zero : bool) (w : nat) (n : Z) : string :=
  if zero then
    if n <? 0 then String "-" (zfill (w - 1) (decimal (- n)))
    else zfill w (decimal n)
  else (blanks (w - String.length (str n)) ++ str n)%string.

(** The leading digits of a string, and what follows them. *)
Fixpoint span_digits (s : string) : string * string :=
  match s with
  | String c r =>
      if is_digit c then
        let '(d, rest) := span_digits r in (String c d, rest)
      else (EmptyString, s)
  | EmptyString => (EmptyString, EmptyString)
  end.

Definition width_of (digits : string) : nat :=
  Z.to_nat (default 0 (parse_digits 0 false digits)).

Definition one_of (c : ascii) (l : list ascii) : bool :=
  existsb (Ascii.eqb c) l.

(** Does the spec open with one of the fields that come before the zero
    flag: [[fill]align], a sign, [z] or [#]? *)
Definition opens_with_flag (spec : string) : bool :=
  match spec with
  | String c r =>
      one_of c ["<"; ">"; "="; "^"; "+"; "-"; " "; "z"; "#"]%char
      || match r with
         | String c' _ => one_of c' ["<"; ">"; "="; "^"]%char
         | EmptyString => false
         end
  | EmptyString => false
  end.

(** [format(n, spec)] for an integer [n].  The interpreter reads the spec
    as [[[fill]align][sign][z][#][0][width][grouping][.precision][type]]
    and refuses it with a ValueError when more than one character is left
    where the type is expected.  The specs made of the zero flag, a width
    and the type [d] (or none) are formatted here; for a spec with another
    field or another type, [beyond n spec] is what the interpreter gives. *)
Definition format (beyond : Z → string → outcome string) (n : Z)
    (spec : string) : outcome string :=
  if opens_with_flag spec then beyond n spec
  else
    let '(zero, after_zero) :=
      match spec with
      | String "0" r => (true, r)
      | _ => (false, spec)
      end in
    let '(digits, rest) := span_digits after_zero in
    if (9 <? String.length digits)%nat then beyond n spec
    else
      match rest with
      | EmptyString => Return (padded zero (width_of digits) n)
      | String c r =>
          if one_of c [","; "_"; "."]%char then beyond n spec
          else
            match r with
            | String _ _ => Raise ValueError
            | EmptyString =>
                if Ascii.eqb c "d"
                then Return (padded zero (width_of digits) n)
                else beyond n spec
            end
      end.

End Py.

Import Py.

#[global] Instance outcome_ret : MRet outcome := @Return.
#[global] Instance outcome_bind : MBind outcome := λ A B k o,
  match o with
  | Return a => k a
  | Raise e => Raise e
  end.

(* ===================================================================== *)
(** * External collaborators                                              *)
(* ===================================================================== *)

(** [generate_download_url] and [get_download_host] are imported from
    [.common], and the token comes from a keystoneauth1 session: the
    session only calls them, so they are taken as an interface.
    [format_beyond] is the interpreter's [format] on the specs that
    [Py.format] does not format itself. *)
Class Collaborators := {
  Auth : Type;
  get_token : Auth → string;
  get_download_host : Auth → string → string;
  (* generate_download_url(host, container=None, object_name=None) *)
  generate_download_url : string → option string → option string → string;
  format_beyond : Z → string → outcome string }.

Inductive method := HEAD | GET | PUT.

(** A multipart reader: the blocks [read_chunk()] still has to return.  At
    the end of the part [read_chunk()] returns [b""]. *)
Definition reader := list (list byte).

Definition read_chunk (r : reader) : list byte * reader :=
  match r with
  | b :: rest => (b, rest)
  | [] => ([], [])
  end.

(** What a request is given as [data=]. *)
Inductive payload :=
| NoData
| EmptyBytes
| FromReader (chunk_reader : reader)
| FromQueue.

(** A call on the aiohttp client, with the headers the source sets. *)
Record request := {
  req_method : method;
  req_url : string;
  req_token : string;
  req_manifest : option string;
  req_content_length : option Z;
  req_content_type : option string;
  req_data : payload }.

(** The answer of the store: [status] is an attribute of the response,
    [text] is what its coroutine method [text()] returns. *)
Record response := { status : Z; text : string }.

(** The object store, as far as one call of a session method sees it. *)
Definition backend := request → response.

(* ===================================================================== *)
(** * The session object                                                  *)
(* ===================================================================== *)

(** An entry of the priority queue is [(chunk_number, {"query", "data"})]. *)
Record segment := { seg_query : gmap string Z; seg_data : reader }.

Section Session.
Context `{Collaborators}.

Record session := {
  q : list (Z * segment);
  q_maxsize : Z;
  done_chunks : gset Z;
  project : string;
  container : string;
  chunk_size : Z;
  total_size : Z;
  total_chunks : Z;
  content_type : string;
  ident : string;
  filename : string;
  path : string;
  total_uploaded : Z;
  auth : Auth;
  coro_upload : option request;
  host : string;
  url : string;
  segmented : bool }.

Definition set_q (v : list (Z * segment)) (s : session) : session :=
  {| q := v; q_maxsize := q_maxsize s; done_chunks := done_chunks s;
     project := project s; container := container s;
     chunk_size := chunk_size s; total_size := total_size s;
     total_chunks := total_chunks s; content_type := content_type s;
     ident := ident s; filename := filename s; path := path s;
     total_uploaded := total_uploaded s; auth := auth s;
     coro_upload := coro_upload s; host := host s; url := url s;
     segmented := segmented s |}.

Definition set_done_chunks (v : gset Z) (s : session) : session :=
  {| q := q s; q_maxsize := q_maxsize s; done_chunks := v;
     project := project s; container := container s;
     chunk_size := chunk_size s; total_size := total_size s;
     total_chunks := total_chunks s; content_type := content_type s;
     ident := ident s; filename := filename s; path := path s;
     total_uploaded := total_uploaded s; auth := auth s;
     coro_upload := coro_upload s; host := host s; url := url s;
     segmented := segmented s |}.

Definition set_total_uploaded (v : Z) (s : session) : session :=
  {| q := q s; q_maxsize := q_maxsize s; done_chunks := done_chunks s;
     project := project s; container := container s;
     chunk_size := chunk_size s; total_size := total_size s;
     total_chunks := total_chunks s; content_type := content_type s;
     ident := ident s; filename := filename s; path := path s;
     total_uploaded := v; auth := auth s;
     coro_upload := coro_upload s; host := host s; url := url s;
     segmented := segmented s |}.

Definition set_coro_upload (v : option request) (s : session) : session :=
  {| q := q s; q_maxsize := q_maxsize s; done_chunks := done_chunks s;
     project := project s; container := container s;
     chunk_size := chunk_size s; total_size := total_size s;
     total_chunks := total_chunks s; content_type := content_type s;
     ident := ident s; filename := filename s; path := path s;
     total_uploaded := total_uploaded s; auth := auth s;
     coro_upload := v; host := host s; url := url s;
     segmented := segmented s |}.

(** ** __init__ *)

(** [environ] is [os.environ]; [query] and [match_info] hold the strings
    of the request's query string and route. *)
Definition init (environ : gmap string string) (a : Auth)
    (query match_info : gmap string string) : outcome session :=
  maxsize ← match environ !! "SWIFT_UPLOAD_RUNNER_PROXY_Q_SIZE" with
            | Some v => int v
            | None => Return 1
            end;
  project_ ← getitem match_info "project";
  container_ ← getitem match_info "container";
  chunk_size_ ← getitem query "resumableChunkSize" ≫= int;
  total_size_ ← getitem query "resumableTotalSize" ≫= int;
  total_chunks_ ← getitem query "resumableTotalChunks" ≫= int;
  content_type_ ← getitem query "resumableType";
  ident_ ← getitem query "resumableIdentifier";
  filename_ ← getitem query "resumableFilename";
  path_ ← getitem query "resumableRelativePath";
  let host_ := get_download_host a project_ in
  Return
    {| q := []; q_maxsize := maxsize; done_chunks := ∅;
       project := project_; container := container_;
       chunk_size := chunk_size_; total_size := total_size_;
       total_chunks := total_chunks_; content_type := content_type_;
       ident := ident_; filename := filename_; path := path_;
       total_uploaded := 0; auth := a; coro_upload := None;
       host := host_;
       url := generate_download_url host_ (Some container_) (Some path_);
       segmented := if 5368709120 <=? total_size_ then true else false |}.

(** [get_segmented] *)
Definition get_segmented (s : session) : bool := segmented s.

(** ** Methods: state, exceptions and the calls made on the client

    A method runs against the object store and the session; it ends in a
    value or an exception, leaves the session as mutated up to that point,
    and has made the listed requests. *)
Definition M (A : Type) : Type :=
  backend → session → outcome A * session * list request.

#[global] Instance M_ret : MRet M := λ A a _ s, (Return a, s, []).
#[global] Instance M_bind : MBind M := λ A B k c be s,
  match c be s with
  | (Return a, s1, t1) =>
      let '(r, s2, t2) := k a be s1 in (r, s2, (t1 ++ t2)%list)
  | (Raise e, s1, t1) => (Raise e, s1, t1)
  end.

Definition raise {A} (e : exn) : M A := λ _ s, (Raise e, s, []).
Definition lift {A} (o : outcome A) : M A := λ _ s, (o, s, []).
Definition gets {A} (f : session → A) : M A := λ _ s, (Return (f s), s, []).
Definition modify (f : session → session) : M unit :=
  λ _ s, (Return tt, f s, []).
Definition send (r : request) : M response :=
  λ be s, (Return (be r), s, [r]).

Definition result {A} (x : outcome A * session * list request) : outcome A :=
  x.1.1.
Definition state_after {A} (x : outcome A * session * list request)
  : session := x.1.2.
Definition requests {A} (x : outcome A * session * list request)
  : list request := x.2.

Definition done_add (n : Z) (s : session) : session :=
  set_done_chunks (done_chunks s ∪ {[n]}) s.
Definition uploaded_add (n : Z) (s : session) : session :=
  set_total_uploaded (total_uploaded s + n) s.

(** ** a_sync_segments *)

Definition listing_request (s : session) : request :=
  {| req_method := GET;
     req_url := generate_download_url
                  (get_download_host (auth s) (project s))
                  (Some (container s ++ "_segments")%string) None;
     req_token := get_token (auth s);
     req_manifest := None; req_content_length := None;
     req_content_type := None; req_data := NoData |}.

(** The [for] loop of line 90. *)
Fixpoint add_segments (segments : list string) : M unit :=
  match segments with
  | [] => mret tt
  | segment :: rest =>
      n ← lift (int (last_token segment));
      modify (done_add n);;
      add_segments rest
  end.

(** Line 88: the lines of the listing. *)
Definition listing_lines (listing : string) : list string :=
  split "010" (lstrip (rstrip listing)).

(** Line 89: the lines in which the relative path occurs. *)
Definition matching_segments (p : string) (listing : string) : list string :=
  List.filter (λ i, contains p i) (listing_lines listing).

(** Line 87 awaits [request.text], the method, not [request.text()]. *)
Definition a_sync_segments : M unit :=
  s ← gets id;
  request ← send (listing_request s);
  segments ← lift (await (BoundMethod (text request)));
  add_segments (matching_segments (path s) segments).

(** ** a_check_segment *)

Definition head_request (s : session) : request :=
  {| req_method := HEAD; req_url := url s;
     req_token := get_token (auth s);
     req_manifest := None; req_content_length := None;
     req_content_type := None; req_data := NoData |}.

Definition a_check_segment (chunk_number : Z) : M Z :=
  s ← gets id;
  request ← send (head_request s);
  if status request =? 200 then mret 200
  else
    done ← gets done_chunks;
    if decide (chunk_number ∈ done) then mret 200
    else raise HTTPNotFound.

(** ** a_add_manifest *)

Definition manifest_request (s : session) : request :=
  {| req_method := PUT;
     req_url := generate_download_url (host s) (Some (container s))
                                      (Some (path s));
     req_token := get_token (auth s);
     req_manifest :=
       Some (container s ++ "_segments/" ++ path s ++ "/")%string;
     req_content_length := None; req_content_type := None;
     req_data := EmptyBytes |}.

Definition a_add_manifest : M unit :=
  s ← gets id;
  resp ← send (manifest_request s);
  if status resp =? 201 then mret tt else raise HTTPBadRequest.

(** ** a_add_chunk *)

(** Where a call of [a_add_chunk] stands when it gives up control: it has
    returned a response, or it is suspended in [q.put] (line 170, the queue
    is full) or in the polling loop of [wait_for_chunk] (line 221). *)
Inductive handler :=
| Putting (chunk_number : Z) (query : gmap string Z) (chunk_reader : reader)
| Waiting (chunk_number : Z)
| Responded (status : Z).

(** The format spec of the replacement field of lines 151 to 153.  The
    field is closed on line 153, so the spec does not end at [08d]: the
    line break and the twenty blanks before the closing brace belong to
    it. *)
Definition index_spec : string :=
  String "0" (String "8" (String "d" (String "010" (blanks 20)))).

(** The object name of lines 151 to 153. *)
Definition segment_name (p : string) (n : Z) : outcome string :=
  index ← format format_beyond n index_spec;
  Return (p ++ "/" ++ index)%string.

Definition segment_request (s : session) (name : string) (len : Z)
    (chunk_reader : reader) : request :=
  {| req_method := PUT;
     req_url := generate_download_url (host s)
                  (Some (container s ++ "_segments")%string)
                  (Some name);
     req_token := get_token (auth s);
     req_manifest := None;
     req_content_length := Some len;
     req_content_type := Some "application/swiftclient-segment";
     req_data := FromReader chunk_reader |}.

(** The single write of the monolithic mode, fed by [generate_from_queue]. *)
Definition upload_request (s : session) (len : Z) : request :=
  {| req_method := PUT; req_url := url s;
     req_token := get_token (auth s);
     req_manifest := None;
     req_content_length := Some len;
     req_content_type := None;
     req_data := FromQueue |}.

(** [asyncio.PriorityQueue]: [full()] and the order [get()] pops in.  An
    entry is placed by its chunk number, the first component of the tuple;
    the comparison of the second components, which the queue makes for two
    entries with the same number, is not modelled. *)
Definition q_full (s : session) : bool :=
  (0 <? q_maxsize s) && (q_maxsize s <=? Z.of_nat (List.length (q s))).

Fixpoint q_insert (e : Z * segment) (l : list (Z * segment))
  : list (Z * segment) :=
  match l with
  | [] => [e]
  | x :: r => if e.1 <? x.1 then e :: l else x :: q_insert e r
  end.

(** One round of the loop of [wait_for_chunk], then line 188. *)
Definition wait_for_chunk (chunk_number : Z) : M handler :=
  done ← gets done_chunks;
  if decide (chunk_number ∈ done) then mret (Responded 201)
  else mret (Waiting chunk_number).

(** Lines 177 to 188, once the entry is in the queue.  The call of
    [client.put] at line 178 is recorded in the list of requests at the
    point where it is made, although the source does not await it there;
    the write it stands for is the one [generate_from_queue] feeds. *)
Definition after_put (query : gmap string Z) (chunk_number : Z) : M handler :=
  done ← gets done_chunks;
  (if decide (done = ∅) then
     len ← lift (getitem query "resumableTotalSize");
     s ← gets id;
     _ ← send (upload_request s len);
     modify (set_coro_upload (Some (upload_request s len)))
   else mret tt);;
  wait_for_chunk chunk_number.

(** Line 170 onwards. *)
Definition q_put (chunk_number : Z) (query : gmap string Z)
    (chunk_reader : reader) : M handler :=
  s ← gets id;
  if q_full s then mret (Putting chunk_number query chunk_reader)
  else
    modify (λ s, set_q (q_insert (chunk_number,
                                  {| seg_query := query;
                                     seg_data := chunk_reader |}) (q s)) s);;
    after_put query chunk_number.

Definition a_add_chunk (query : gmap string Z) (chunk_reader : reader)
  : M handler :=
  chunk_number ← lift (getitem query "resumableChunkNUmber");
  done ← gets done_chunks;
  if decide (chunk_number ∈ done) then mret (Responded 200)
  else
    seg ← gets segmented;
    if (seg : bool) then
      s ← gets id;
      n ← lift (getitem query "resumableChunkNumber");
      name ← lift (segment_name (path s) n);
      len ← lift (getitem query "resumableCurrentChunkSize");
      resp ← send (segment_request s name len chunk_reader);
      if status resp =? 408 then raise HTTPRequestTimeout
      else
        size ← lift (getitem query "resumableCurrentChunkSize");
        modify (uploaded_add size);;
        s ← gets id;
        (if total_uploaded s =? total_size s then a_add_manifest
         else mret tt);;
        n ← lift (getitem query "resumableChunkNumber");
        modify (done_add n);;
        mret (Responded 201)
    else q_put chunk_number query chunk_reader.

(** ** The tasks of a monolithic upload

    The handlers of the chunk requests and the generator that feeds the
    write share the session.  A task runs until it suspends; [event] names
    the task that runs next.  The handlers are run by the requests.  The
    generator is not run by anything in the module: line 180 hands the
    method [generate_from_queue] to [client.put], and what that call
    returns is awaited at line 209 only, inside the generator.  [Generate]
    is the step of a consumer of the data of the write, when there is
    one. *)
Inductive generator :=
| Idle
| Reading (chunk_number : Z) (seg : segment)
| Finished
| Broken (e : exn).

Record machine := {
  sess : session;
  handlers : list (outcome handler);
  gen : generator;
  body : list byte;
  sent : list request }.

Inductive event :=
| Arrive (query : gmap string Z) (chunk_reader : reader)
| Resume (i : nat)
| Generate.

Definition start (s : session) : machine :=
  {| sess := s; handlers := []; gen := Idle; body := []; sent := [] |}.

(** A new call of [a_add_chunk], up to its first suspension. *)
Definition arrive (be : backend) (query : gmap string Z)
    (chunk_reader : reader) (m : machine) : machine :=
  let '(r, s, t) := a_add_chunk query chunk_reader be (sess m) in
  {| sess := s; handlers := (handlers m ++ [r])%list; gen := gen m;
     body := body m; sent := (sent m ++ t)%list |}.

(** A suspended handler goes on: a putter once the queue has room, a
    waiter for one more round of its loop. *)
Definition resume (be : backend) (i : nat) (m : machine) : option machine :=
  let continue (c : M handler) :=
    let '(r, s, t) := c be (sess m) in
    Some {| sess := s; handlers := <[i := r]> (handlers m); gen := gen m;
            body := body m; sent := (sent m ++ t)%list |} in
  match handlers m !! i with
  | Some (Return (Putting chunk_number query chunk_reader)) =>
      if q_full (sess m) then None
      else continue (q_put chunk_number query chunk_reader)
  | Some (Return (Waiting chunk_number)) =>
      continue (wait_for_chunk chunk_number)
  | _ => None
  end.

(** [generate_from_queue], from one suspension to the next, when a
    consumer asks for the next block: pop the entry with the least chunk
    number, or read one block and yield it, or, at the end of the reader,
    account for the chunk and loop.  A consumer exists only once a write
    has been created, and the [await] of line 209 is taken to end the
    stream. *)
Definition generate (m : machine) : option machine :=
  let upd s g b :=
    Some {| sess := s; handlers := handlers m; gen := g; body := b;
            sent := sent m |} in
  match gen m with
  | Idle =>
      match coro_upload (sess m), q (sess m) with
      | Some _, (chunk_number, seg) :: rest =>
          upd (set_q rest (sess m)) (Reading chunk_number seg) (body m)
      | _, _ => None
      end
  | Reading chunk_number seg =>
      let '(chunk, rest) := read_chunk (seg_data seg) in
      match chunk with
      | _ :: _ =>
          upd (sess m)
              (Reading chunk_number
                 {| seg_query := seg_query seg; seg_data := rest |})
              (body m ++ chunk)%list
      | [] =>
          match getitem (seg_query seg) "resumableCurrentChunkSize" with
          | Raise e => upd (sess m) (Broken e) (body m)
          | Return n =>
              let s := done_add chunk_number (uploaded_add n (sess m)) in
              match getitem (seg_query seg) "resumableTotalChunks" with
              | Raise e => upd s (Broken e) (body m)
              | Return total =>
                  if Z.of_nat (size (done_chunks s)) =? total
                  then upd s Finished (body m)
                  else upd s Idle (body m)
              end
          end
      end
  | Finished | Broken _ => None
  end.

Definition step (be : backend) (e : event) (m : machine) : option machine :=
  match e with
  | Arrive query chunk_reader => Some (arrive be query chunk_reader m)
  | Resume i => resume be i m
  | Generate => generate m
  end.

Fixpoint run (be : backend) (es : list event) (m : machine)
  : option machine :=
  match es with
  | [] => Some m
  | e :: rest =>
      match step be e m with
      | Some m' => run be rest m'
      | None => None
      end
  end.

(** ** Invariants of the session *)

(** A method extends [done_chunks] when no run of it removes a chunk. *)
Definition extends_done {A} (c : M A) : Prop :=
  ∀ be s, done_chunks s ⊆ done_chunks (state_after (c be s)).

(** The queue is ordered by chunk number. *)
Definition q_sorted (s : session) : Prop :=
  StronglySorted Z.le ((q s).*1).

(** The queue respects its bound. *)
Definition q_bounded (s : session) : Prop :=
  0 < q_maxsize s → Z.of_nat (List.length (q s)) ≤ q_maxsize s.

(** What holds of the write while the entry [(c, seg)] that was queued
    first is on its way: nothing has been yielded and the entry is alone in
    the queue or is the one being read, or the body starts with block [b]. *)
Definition leads (b : list byte) (c : Z) (seg : segment) (m : machine)
  : Prop :=
  (body m = [] ∧ gen m = Idle ∧ q (sess m) = [(c, seg)]) ∨
  (body m = [] ∧ gen m = Reading c seg) ∨
  (∃ rest, body m = (b ++ rest)%list).

(** A method keeps the field (or view) [f] of the session when no run of
    it changes [f]; it keeps the mode when it keeps [segmented]. *)
Definition keeps {A X} (f : session → X) (c : M A) : Prop :=
  ∀ be s, f (state_after (c be s)) = f s.

Definition keeps_mode {A} (c : M A) : Prop := keeps segmented c.

End Session.

(** The parameter names of the chunk-upload protocol (resumable.js). *)
Definition documented : gset string :=
  {[ "resumableChunkSize"; "resumableTotalSize"; "resumableTotalChunks";
     "resumableType"; "resumableIdentifier"; "resumableFilename";
     "resumableRelativePath"; "resumableChunkNumber";
     "resumableCurrentChunkSize" ]}.


(* ===================================================================== *)
(** * A concrete deployment, for the examples                             *)
(* ===================================================================== *)

Module Example.

(** A store that names objects [host/container/object]; the auth session
    is represented by the token it hands out.  No example formats with a
    spec that [Py.format] leaves to [format_beyond]. *)
#[export] Instance store : Collaborators := {|
  Auth := string;
  get_token := id;
  get_download_host := λ _ project_, ("https://store/v1/AUTH_" ++ project_)%string;
  generate_download_url := λ host_ container_ object_name,
    match container_, object_name with
    | Some c, Some o => (host_ ++ "/" ++ c ++ "/" ++ o)%string
    | Some c, None => (host_ ++ "/" ++ c)%string
    | None, _ => host_
    end;
  format_beyond := λ n _, Return (str n) |}.

Definition match_info : gmap string string :=
  {[ "project" := "p1"; "container" := "bucket" ]}.

(** The query string of the first contact, for a file of [total] bytes in
    [chunks] chunks of [size] bytes. *)
Definition first_query (size total chunks : string) : gmap string string :=
  {[ "resumableChunkSize" := size;
     "resumableTotalSize" := total;
     "resumableTotalChunks" := chunks;
     "resumableType" := "text/plain";
     "resumableIdentifier" := "id-1";
     "resumableFilename" := "a.txt";
     "resumableRelativePath" := "dir/a.txt" ]}.

(** The session [init] builds from [first_query], written out. *)
Definition session_of (total chunks : Z) : session :=
  {| q := []; q_maxsize := 1; done_chunks := ∅;
     project := "p1"; container := "bucket";
     chunk_size := 2; total_size := total; total_chunks := chunks;
     content_type := "text/plain"; ident := "id-1"; filename := "a.txt";
     path := "dir/a.txt"; total_uploaded := 0; auth := "tok";
     coro_upload := None;
     host := "https://store/v1/AUTH_p1";
     url := "https://store/v1/AUTH_p1/bucket/dir/a.txt";
     segmented := if 5368709120 <=? total then true else false |}.

(** The parameters of one chunk request as the protocol documents them. *)
Definition chunk_query (n size total chunks : Z) : gmap string Z :=
  {[ "resumableChunkNumber" := n;
     "resumableCurrentChunkSize" := size;
     "resumableChunkSize" := 2;
     "resumableTotalSize" := total;
     "resumableTotalChunks" := chunks ]}.

(** The same with the chunk number also under the key line 141 reads. *)
Definition chunk_query' (n size total chunks : Z) : gmap string Z :=
  <[ "resumableChunkNUmber" := n ]> (chunk_query n size total chunks).

(** A store that answers every request with one status. *)
Definition always (st : Z) : backend := λ _, {| status := st; text := "" |}.

(** A store that answers [st] to the requests whose URL is [u] and 201 to
    the others. *)
Definition answering (u : string) (st : Z) : backend := λ r,
  {| status := if String.eqb (req_url r) u then st else 201; text := "" |}.

Definition nl : string := String "010" EmptyString.

(** The listing of a segment container with chunks 0 and 3 of the object
    [dir/a.txt]. *)
Definition two_segments : string :=
  ("dir/a.txt/00000000" ++ nl ++ "dir/a.txt/00000003" ++ nl)%string.

(** A store whose listing of the segment container is [listing]. *)
Definition listing_of (listing : string) : backend := λ _,
  {| status := 200; text := listing |}.

(** Two chunks of a four-byte file: chunk 0 is "ab" in one block, chunk 1
    is "c" then "d". *)
Definition chunk0 : reader := [[x61; x62]].
Definition chunk1 : reader := [[x63]; [x64]].

(** Chunk 1 is sent first and chunk 0 once chunk 1 has been answered. *)
Definition one_at_a_time : list event :=
  [ Arrive (chunk_query' 1 2 4 2) chunk1;
    Generate; Generate; Generate; Generate; Resume 0%nat;
    Arrive (chunk_query' 0 2 4 2) chunk0;
    Generate; Generate; Generate; Resume 1%nat ].

(** Chunk 1 then chunk 0 arrive before the generator has run: the second
    handler finds the queue full and is resumed after the first pop. *)
Definition both_at_once : list event :=
  [ Arrive (chunk_query' 1 2 4 2) chunk1;
    Arrive (chunk_query' 0 2 4 2) chunk0;
    Generate; Resume 1%nat;
    Generate; Generate; Generate; Resume 0%nat;
    Generate; Generate; Generate; Resume 1%nat ].

(** The same two requests with the documented parameters only. *)
Definition as_documented : list event :=
  [ Arrive (chunk_query 1 2 4 2) chunk1;
    Arrive (chunk_query 0 2 4 2) chunk0 ].

(** A segmented upload of 5 GiB in two chunks of 2.5 GiB. *)
Definition five_gib : Z := 5368709120.
Definition half : Z := 2684354560.

(** The session of that upload with chunk 0 in [done_chunks] and its
    bytes counted. *)
Definition after_chunk0 : session :=
  done_add 0 (uploaded_add half (session_of five_gib 2)).

(** A store that rejects the manifest of [session_of] with 500. *)
Definition rejecting_manifest : backend :=
  answering "https://store/v1/AUTH_p1/bucket/dir/a.txt" 500.

(** The monolithic session of [session_of 4 2] with room for four entries
    in its queue (SWIFT_UPLOAD_RUNNER_PROXY_Q_SIZE set to 4). *)
Definition wide : session :=
  {| q := []; q_maxsize := 4; done_chunks := ∅;
     project := "p1"; container := "bucket";
     chunk_size := 2; total_size := 4; total_chunks := 2;
     content_type := "text/plain"; ident := "id-1"; filename := "a.txt";
     path := "dir/a.txt"; total_uploaded := 0; auth := "tok";
     coro_upload := None;
     host := "https://store/v1/AUTH_p1";
     url := "https://store/v1/AUTH_p1/bucket/dir/a.txt";
     segmented := false |}.

(** Chunk 1 then chunk 0 are queued before the generator runs. *)
Definition two_queued : list event :=
  [ Arrive (chunk_query' 1 2 4 2) chunk1;
    Arrive (chunk_query' 0 2 4 2) chunk0 ].

(** The monolithic session once chunk 1 has been streamed. *)
Definition one_done : session :=
  done_add 1
    (uploaded_add 2
       (set_coro_upload (Some (upload_request (session_of 4 2) 4))
                        (session_of 4 2))).

(** Chunk 0 sent to that session. *)
Definition chunk0_alone : list event :=
  [ Arrive (chunk_query' 0 2 4 2) chunk0;
    Generate; Generate; Generate; Resume 0%nat ].

(** Chunk 1 then chunk 0 arrive, and their handlers are given the chance
    to go on, while nothing consumes the generator. *)
Definition unconsumed : list event :=
  [ Arrive (chunk_query' 1 2 4 2) chunk1;
    Arrive (chunk_query' 0 2 4 2) chunk0;
    Resume 0%nat; Resume 0%nat ].

End Example.

(* ===================================================================== *)
(** * Properties of the session                                           *)
(* ===================================================================== *)

Section Properties.
Context `{Collaborators}.

(** ** Running a method step by step *)

Lemma bind_ret {A B} (a : A) (k : A → M B) be s :
  (mret a ≫= k) be s = k a be s.
Proof. unfold mbind, M_bind, mret, M_ret. by destruct (k a be s) as [[??]?]. Qed.

Lemma bind_raise {A B} (e : exn) (k : A → M B) be s :
  (raise e ≫= k) be s = (Raise e, s, []).
Proof. done. Qed.

Lemma bind_gets {A B} (f : session → A) (k : A → M B) be s :
  (gets f ≫= k) be s = k (f s) be s.
Proof. unfold mbind, M_bind, gets. by destruct (k (f s) be s) as [[??]?]. Qed.

Lemma bind_modify {B} (f : session → session) (k : unit → M B) be s :
  (modify f ≫= k) be s = k tt be (f s).
Proof. unfold mbind, M_bind, modify. by destruct (k tt be (f s)) as [[??]?]. Qed.

Lemma bind_lift {A B} (o : outcome A) (k : A → M B) be s :
  (lift o ≫= k) be s =
  match o with Return a => k a be s | Raise e => (Raise e, s, []) end.
Proof.
  unfold mbind, M_bind, lift. destruct o as [a|e]; [|done].
  by destruct (k a be s) as [[??]?].
Qed.

Lemma bind_send {B} (r : request) (k : response → M B) be s :
  (send r ≫= k) be s =
  (result (k (be r) be s), state_after (k (be r) be s),
   r :: requests (k (be r) be s)).
Proof. unfold mbind, M_bind, send. by destruct (k (be r) be s) as [[??]?]. Qed.

Lemma bind_assoc {A B C} (c : M A) (f : A → M B) (g : B → M C) be s :
  ((c ≫= f) ≫= g) be s = (c ≫= λ a, f a ≫= g) be s.
Proof.
  unfold mbind, M_bind. destruct (c be s) as [[[a|e] s1] t1]; [|done].
  destruct (f a be s1) as [[[b|e] s2] t2]; [|done].
  destruct (g b be s2) as [[r s3] t3]. by rewrite app_assoc.
Qed.

Lemma bind_run {A B} (c : M A) (k : A → M B) be s :
  (c ≫= k) be s =
  match c be s with
  | (Return a, s1, t1) =>
      (result (k a be s1), state_after (k a be s1),
       (t1 ++ requests (k a be s1))%list)
  | (Raise e, s1, t1) => (Raise e, s1, t1)
  end.
Proof.
  unfold mbind, M_bind. destruct (c be s) as [[[a|e] s1] t1]; [|done].
  by destruct (k a be s1) as [[??]?].
Qed.

Ltac mstep :=
  first [ rewrite bind_assoc | rewrite bind_ret | rewrite bind_gets
        | rewrite bind_modify | rewrite bind_lift | rewrite bind_send
        | rewrite bind_raise ];
  cbv beta.

Lemma a_check_segment_eq n be s :
  a_check_segment n be s =
  (if status (be (head_request s)) =? 200 then Return 200
   else if decide (n ∈ done_chunks s) then Return 200
        else Raise HTTPNotFound,
   s, [head_request s]).
Proof.
  unfold a_check_segment. repeat mstep. unfold id.
  destruct (_ =? 200); [done|]. mstep.
  by destruct (decide _).
Qed.

Lemma a_add_manifest_eq be s :
  a_add_manifest be s =
  (if status (be (manifest_request s)) =? 201 then Return tt
   else Raise HTTPBadRequest, s, [manifest_request s]).
Proof.
  unfold a_add_manifest. repeat mstep. unfold id. by destruct (_ =? 201).
Qed.


(** ** a_add_chunk, case by case *)

Lemma a_add_chunk_no_key q rd be s :
  q !! "resumableChunkNUmber" = None →
  a_add_chunk q rd be s = (Raise (KeyError "resumableChunkNUmber"), s, []).
Proof.
  intros Hq. unfold a_add_chunk. mstep. unfold getitem. by rewrite Hq.
Qed.

Lemma a_add_chunk_done q rd be s n :
  q !! "resumableChunkNUmber" = Some n → n ∈ done_chunks s →
  a_add_chunk q rd be s = (Return (Responded 200), s, []).
Proof.
  intros Hq Hn. unfold a_add_chunk. mstep. unfold getitem. rewrite Hq.
  mstep. by rewrite decide_True.
Qed.

(** The replacement field of lines 151 to 153 raises for every chunk
    number: after the zero flag and the width, more than one character is
    left of its spec. *)
Lemma segment_name_raises p n : segment_name p n = Raise ValueError.
Proof. reflexivity. Qed.

Lemma a_add_chunk_segmented q rd be s cn :
  q !! "resumableChunkNUmber" = Some cn → cn ∉ done_chunks s →
  segmented s = true →
  a_add_chunk q rd be s =
  (match q !! "resumableChunkNumber" with
   | None => Raise (KeyError "resumableChunkNumber")
   | Some _ => Raise ValueError
   end, s, []).
Proof.
  intros Hq Hn Hseg. unfold a_add_chunk. mstep. unfold getitem. rewrite Hq.
  mstep. rewrite decide_False by done. mstep. rewrite Hseg. mstep.
  destruct (q !! "resumableChunkNumber") as [n|]; [|done].
  mstep. unfold id. mstep. by rewrite segment_name_raises.
Qed.

(** In segmented mode a call of [a_add_chunk] ends before the segment PUT:
    with 200 for a chunk that is done, and otherwise in a KeyError or in
    the ValueError of line 151. *)
Lemma a_add_chunk_segmented_ends q rd be s :
  segmented s = true →
  ∃ o, a_add_chunk q rd be s = (o, s, []) ∧
       (o = Return (Responded 200) ∨ o = Raise ValueError ∨
        ∃ k, o = Raise (KeyError k)).
Proof.
  intros Hseg.
  destruct (q !! "resumableChunkNUmber") as [cn|] eqn:Hq.
  2: { rewrite a_add_chunk_no_key by done. eauto 6. }
  destruct (decide (cn ∈ done_chunks s)) as [Hd|Hd].
  { rewrite (a_add_chunk_done _ _ _ _ cn) by done. eauto. }
  rewrite (a_add_chunk_segmented _ _ _ _ cn) by done.
  destruct (q !! "resumableChunkNumber"); eauto 6.
Qed.

(** C8.  The object name of a segment is never built: the format spec of
    lines 151 to 153 is [08d] followed by the line break and the
    indentation before the closing brace, and the interpreter refuses it
    with a ValueError for every chunk number.  The spec [08d] alone gives
    the number zero-padded to eight digits. *)
Theorem segment_name_value_error p n :
  segment_name p n = Raise ValueError ∧
  format format_beyond n "08d" = Return (padded true 8 n).
Proof. split; reflexivity. Qed.

(** C7.  Segmented mode: the segment PUT is never made, so no answer of
    the store, 408 or other, reaches the call.  Whatever the query and the
    store, the call makes no request and leaves the session as it was, it
    does not raise Request Timeout and does not answer 201, and sending the
    chunk again, to any store, ends the same way; for a chunk that is not
    done and has its number under both keys, that is the ValueError of
    line 151. *)
Theorem a_add_chunk_never_times_out q rd be s :
  segmented s = true →
  let r := a_add_chunk q rd be s in
  requests r = [] ∧ state_after r = s ∧
  result r ≠ Raise HTTPRequestTimeout ∧
  result r ≠ Return (Responded 201) ∧
  (∀ be', a_add_chunk q rd be' (state_after r) = r) ∧
  ∀ cn n, q !! "resumableChunkNUmber" = Some cn → cn ∉ done_chunks s →
          q !! "resumableChunkNumber" = Some n →
          result r = Raise ValueError ∧ status_code ValueError = None.
Proof.
  intros Hseg. cbv zeta.
  destruct (a_add_chunk_segmented_ends q rd be s Hseg) as (o & Hr & Ho).
  rewrite Hr. unfold requests, state_after, result. cbn [fst snd].
  split; [done|]. split; [done|].
  split; [by destruct Ho as [->|[->|[k ->]]]|].
  split; [by destruct Ho as [->|[->|[k ->]]]|].
  split.
  - intros be'. rewrite <- Hr.
    destruct (q !! "resumableChunkNUmber") as [cn|] eqn:Hq.
    2: { by rewrite !a_add_chunk_no_key. }
    destruct (decide (cn ∈ done_chunks s)) as [Hd|Hd].
    { by rewrite !(a_add_chunk_done _ _ _ _ cn). }
    by rewrite !(a_add_chunk_segmented _ _ _ _ cn).
  - intros cn n Hcn Hd Hn. split; [|done].
    rewrite (a_add_chunk_segmented _ _ _ _ cn), Hn in Hr by done.
    by injection Hr as <-.
Qed.

(** C6.  Segmented mode and a store that rejects the manifest: no chunk
    request gets as far as the manifest.  Whatever the query, the call
    makes no request, leaves the session as it was and does not raise Bad
    Request; for a chunk that is not done and has its number under both
    keys, the last chunk of the upload included, it ends in the ValueError
    of line 151, which carries no HTTP status.  [a_add_manifest] itself,
    when it is called, makes the manifest PUT, raises Bad Request (400) on
    that answer and leaves the session alone. *)
Theorem manifest_failure_never_reached q rd be s :
  segmented s = true →
  status (be (manifest_request s)) ≠ 201 →
  let r := a_add_chunk q rd be s in
  requests r = [] ∧ state_after r = s ∧
  result r ≠ Raise HTTPBadRequest ∧
  (∀ cn n, q !! "resumableChunkNUmber" = Some cn → cn ∉ done_chunks s →
           q !! "resumableChunkNumber" = Some n →
           result r = Raise ValueError ∧ status_code ValueError = None) ∧
  a_add_manifest be s = (Raise HTTPBadRequest, s, [manifest_request s]) ∧
  status_code HTTPBadRequest = Some 400.
Proof.
  intros Hseg Hst. cbv zeta.
  destruct (a_add_chunk_segmented_ends q rd be s Hseg) as (o & Hr & Ho).
  rewrite Hr. unfold requests, state_after, result. cbn [fst snd].
  split; [done|]. split; [done|].
  split; [by destruct Ho as [->|[->|[k ->]]]|].
  split.
  - intros cn n Hcn Hd Hn. split; [|done].
    rewrite (a_add_chunk_segmented _ _ _ _ cn), Hn in Hr by done.
    by injection Hr as <-.
  - rewrite a_add_manifest_eq. apply Z.eqb_neq in Hst. by rewrite Hst.
Qed.

(** C3.  The existence check makes one HEAD request on the destination
    and leaves the session alone; a 200 answer gives 200 whatever the
    chunk number; otherwise membership in [done_chunks] gives 200, and
    anything else is 404 Not Found. *)
Theorem a_check_segment_order n be s :
  let r := a_check_segment n be s in
  requests r = [head_request s] ∧ state_after r = s ∧
  (status (be (head_request s)) = 200 → result r = Return 200) ∧
  (status (be (head_request s)) ≠ 200 → n ∈ done_chunks s →
   result r = Return 200) ∧
  (status (be (head_request s)) ≠ 200 → n ∉ done_chunks s →
   result r = Raise HTTPNotFound ∧ status_code HTTPNotFound = Some 404).
Proof.
  cbv zeta. rewrite a_check_segment_eq. unfold result, state_after, requests.
  cbn [fst snd]. split; [done|]. split; [done|]. split; [|split].
  - intros ->. done.
  - intros Hst Hn. apply Z.eqb_neq in Hst. rewrite Hst. by rewrite decide_True.
  - intros Hst Hn. apply Z.eqb_neq in Hst. rewrite Hst. by rewrite decide_False.
Qed.

(** C10.  Any HEAD status other than 200 is handled as absence: two
    stores answering different non-200 statuses get the same run of the
    check, whose result is decided by [done_chunks] alone and is either 200
    or 404 Not Found. *)
Theorem a_check_segment_head_errors n be1 be2 s :
  status (be1 (head_request s)) ≠ 200 →
  status (be2 (head_request s)) ≠ 200 →
  a_check_segment n be1 s = a_check_segment n be2 s ∧
  result (a_check_segment n be1 s) =
    (if decide (n ∈ done_chunks s) then Return 200 else Raise HTTPNotFound).
Proof.
  intros H1 H2. rewrite !a_check_segment_eq.
  apply Z.eqb_neq in H1, H2. by rewrite H1, H2.
Qed.

Lemma misspelt_key_undocumented (q : gmap string Z) :
  dom q ⊆ documented → q !! "resumableChunkNUmber" = None.
Proof.
  intros Hdom. apply not_elem_of_dom. intros Hin. apply Hdom in Hin.
  assert (Hn : "resumableChunkNUmber" ∉ documented).
  { apply (proj1 (bool_decide_eq_false _)). by vm_compute. }
  done.
Qed.

(** C2.  A query holding only the documented parameters has no entry for
    the key line 141 reads, so the call ends in a KeyError, which is none
    of the four HTTP outcomes; nothing is sent and the session is as it
    was. *)
Theorem a_add_chunk_documented_query q rd be s :
  dom q ⊆ documented →
  a_add_chunk q rd be s = (Raise (KeyError "resumableChunkNUmber"), s, []) ∧
  status_code (KeyError "resumableChunkNUmber") = None.
Proof.
  intros Hdom. split; [|done].
  by apply a_add_chunk_no_key, misspelt_key_undocumented.
Qed.

(** C4.  Submitting again a chunk that is in [done_chunks]: with the
    documented parameters the call does not return a response, it ends in
    a KeyError at line 141; when the chunk number is also found under the
    key that line reads, the call returns 200.  Either way no request is
    made and the session is unchanged. *)
Theorem a_add_chunk_resend_done q rd be s n :
  n ∈ done_chunks s → q !! "resumableChunkNumber" = Some n →
  (dom q ⊆ documented →
   a_add_chunk q rd be s = (Raise (KeyError "resumableChunkNUmber"), s, [])) ∧
  (q !! "resumableChunkNUmber" = Some n →
   a_add_chunk q rd be s = (Return (Responded 200), s, [])).
Proof.
  intros Hn _. split.
  - intros Hdom. by apply a_add_chunk_no_key, misspelt_key_undocumented.
  - intros Hq. by apply (a_add_chunk_done q rd be s n).
Qed.

(** ** The mode is fixed at creation *)

Lemma init_total_size environ a query match_info s :
  init environ a query match_info = Return s →
  getitem query "resumableTotalSize" ≫= int = Return (total_size s) ∧
  segmented s = (if 5368709120 <=? total_size s then true else false).
Proof.
  unfold init. intros Hi.
  repeat match type of Hi with
  | (?o ≫= _) = Return _ =>
      let E := fresh "E" in
      destruct o eqn:E; cbn [mbind outcome_bind] in Hi; [|discriminate Hi]
  end.
  injection Hi as <-. by cbn [total_size segmented].
Qed.

Section Keeps.
Context {X : Type} (f : session → X).

Lemma keeps_ret {A} (a : A) : keeps f (mret a).
Proof. done. Qed.

Lemma keeps_raise {A} e : keeps f (raise (A:=A) e).
Proof. done. Qed.

Lemma keeps_lift {A} (o : outcome A) : keeps f (lift o).
Proof. done. Qed.

Lemma keeps_gets {A} (g : session → A) : keeps f (gets g).
Proof. done. Qed.

Lemma keeps_send r : keeps f (send r).
Proof. done. Qed.

Lemma keeps_modify g : (∀ s, f (g s) = f s) → keeps f (modify g).
Proof. intros Hg be s. apply Hg. Qed.

Lemma keeps_bind {A B} (c : M A) (k : A → M B) :
  keeps f c → (∀ a, keeps f (k a)) → keeps f (c ≫= k).
Proof.
  intros Hc Hk be s. rewrite bind_run. specialize (Hc be s).
  destruct (c be s) as [[[a|e] s1] t1]; [|done].
  unfold state_after in *. cbn [fst snd] in *. rewrite <- Hc. apply Hk.
Qed.

Lemma keeps_if {A} (b : bool) (c1 c2 : M A) :
  keeps f c1 → keeps f c2 → keeps f (if b then c1 else c2).
Proof. by destruct b. Qed.

Lemma keeps_decide {A} P `{Decision P} (c1 c2 : M A) :
  keeps f c1 → keeps f c2 → keeps f (if decide P then c1 else c2).
Proof. by destruct (decide P). Qed.

End Keeps.

Ltac keeps :=
  repeat first
    [ apply keeps_ret | apply keeps_raise | apply keeps_lift
    | apply keeps_gets | apply keeps_send
    | apply keeps_modify; intros; unfold done_add, uploaded_add; by auto
    | apply keeps_if | apply keeps_decide
    | apply keeps_bind; [|intros ?] ].

(** Fields that none of the four setters touches are kept by every
    method and by every step of the tasks. *)
Section Untouched.
Context {X : Type} (f : session → X).
Hypothesis f_set_q : ∀ v s, f (set_q v s) = f s.
Hypothesis f_set_done_chunks : ∀ v s, f (set_done_chunks v s) = f s.
Hypothesis f_set_total_uploaded : ∀ v s, f (set_total_uploaded v s) = f s.
Hypothesis f_set_coro_upload : ∀ v s, f (set_coro_upload v s) = f s.

Lemma keeps_add_segments segments : keeps f (add_segments segments).
Proof. induction segments; cbn [add_segments]; keeps; assumption. Qed.

Lemma keeps_a_sync_segments : keeps f a_sync_segments.
Proof. unfold a_sync_segments. keeps; apply keeps_add_segments. Qed.

Lemma keeps_a_check_segment n : keeps f (a_check_segment n).
Proof. unfold a_check_segment. keeps. Qed.

Lemma keeps_a_add_manifest : keeps f a_add_manifest.
Proof. unfold a_add_manifest. keeps. Qed.

Lemma keeps_wait_for_chunk n : keeps f (wait_for_chunk n).
Proof. unfold wait_for_chunk. keeps. Qed.

Lemma keeps_q_put n q rd : keeps f (q_put n q rd).
Proof. unfold q_put, after_put, wait_for_chunk. keeps. Qed.

Lemma keeps_a_add_chunk q rd : keeps f (a_add_chunk q rd).
Proof.
  unfold a_add_chunk, a_add_manifest, q_put, after_put, wait_for_chunk.
  keeps.
Qed.

Lemma step_keeps be e m m' :
  step be e m = Some m' → f (sess m') = f (sess m).
Proof.
  destruct e as [q rd|i|]; cbn [step].
  - intros [= <-]. unfold arrive.
    pose proof (keeps_a_add_chunk q rd be (sess m)) as Hk.
    by destruct (a_add_chunk q rd be (sess m)) as [[r s] t].
  - unfold resume. destruct (handlers m !! i) as [[[cn q rd|cn|st]|e]|];
      try discriminate.
    + destruct (q_full (sess m)); [discriminate|].
      pose proof (keeps_q_put cn q rd be (sess m)) as Hk.
      destruct (q_put cn q rd be (sess m)) as [[r s] t]. by intros [= <-].
    + pose proof (keeps_wait_for_chunk cn be (sess m)) as Hk.
      destruct (wait_for_chunk cn be (sess m)) as [[r s] t]. by intros [= <-].
  - unfold generate. destruct (gen m) as [|cn seg| |e]; try discriminate.
    + destruct (coro_upload (sess m)); [|discriminate].
      destruct (q (sess m)) as [|[cn seg] rest]; [discriminate|].
      intros [= <-]. cbn [sess]. auto.
    + destruct (read_chunk (seg_data seg)) as [[|b chunk] rest].
      * destruct (getitem _ "resumableCurrentChunkSize");
          [|by intros [= <-]].
        unfold done_add, uploaded_add.
        destruct (getitem _ "resumableTotalChunks");
          [case_match|]; intros [= <-]; cbn [sess];
          by rewrite f_set_done_chunks, f_set_total_uploaded.
      * by intros [= <-].
Qed.

End Untouched.

Lemma step_keeps_mode be e m m' :
  step be e m = Some m' → segmented (sess m') = segmented (sess m).
Proof. by apply step_keeps. Qed.

Lemma step_keeps_maxsize be e m m' :
  step be e m = Some m' → q_maxsize (sess m') = q_maxsize (sess m).
Proof. by apply step_keeps. Qed.

Lemma arrive_keeps_mode be query rd m :
  segmented (sess (arrive be query rd m)) = segmented (sess m) ∧
  q_maxsize (sess (arrive be query rd m)) = q_maxsize (sess m).
Proof.
  split; [apply (step_keeps_mode be (Arrive query rd))
         |apply (step_keeps_maxsize be (Arrive query rd))]; done.
Qed.

(** C5.  The session [__init__] returns has [segmented] set exactly when
    the declared total size, read from [resumableTotalSize], is at least
    5368709120; and no method, and no step of the tasks of an upload,
    changes [segmented]. *)
Theorem segmented_fixed_at_creation :
  (∀ environ a query match_info s,
     init environ a query match_info = Return s →
     getitem query "resumableTotalSize" ≫= int = Return (total_size s) ∧
     (segmented s = true ↔ 5368709120 ≤ total_size s)) ∧
  keeps_mode a_sync_segments ∧
  (∀ n, keeps_mode (a_check_segment n)) ∧
  keeps_mode a_add_manifest ∧
  (∀ q rd, keeps_mode (a_add_chunk q rd)) ∧
  (∀ be e m m', step be e m = Some m' →
     segmented (sess m') = segmented (sess m)).
Proof.
  split.
  - intros environ a query match_info s Hi.
    destruct (init_total_size _ _ _ _ _ Hi) as [Hsz ->]. split; [done|].
    destruct (Z.leb_spec 5368709120 (total_size s)); split; intros;
      (done || lia).
  - split; [by apply keeps_a_sync_segments|].
    split; [intros n; by apply keeps_a_check_segment|].
    split; [by apply keeps_a_add_manifest|].
    split; [intros q rd; by apply keeps_a_add_chunk|].
    apply step_keeps_mode.
Qed.


(** ** Resume discovery *)

(** C9.  Resume discovery makes the GET on the listing of the segment
    container and then ends in a TypeError: line 87 awaits the method
    [request.text], which is not awaitable.  Nothing of the listing is
    read, and [done_chunks], like the rest of the session, is as it was,
    whatever the store lists. *)
Theorem a_sync_segments_type_error be s :
  let r := a_sync_segments be s in
  result r = Raise TypeError ∧ status_code TypeError = None ∧
  requests r = [listing_request s] ∧
  state_after r = s.
Proof. cbv zeta. unfold a_sync_segments. by repeat mstep. Qed.


(** ** The order of the body in the monolithic mode *)

Lemma a_add_chunk_queue_full query rd be s :
  segmented s = false → q_full s = true →
  state_after (a_add_chunk query rd be s) = s.
Proof.
  intros Hseg Hfull. unfold a_add_chunk. mstep.
  destruct (getitem query _) as [cn|e]; [|done].
  mstep. destruct (decide _); [done|]. mstep. rewrite Hseg.
  unfold q_put. mstep. unfold id. by rewrite Hfull.
Qed.

Lemma keeps_q_after_put query cn : keeps q (after_put query cn).
Proof. unfold after_put, wait_for_chunk. keeps. Qed.

Lemma a_add_chunk_first query rd be s cn :
  segmented s = false → q s = [] → q_maxsize s = 1 →
  query !! "resumableChunkNUmber" = Some cn → cn ∉ done_chunks s →
  q (state_after (a_add_chunk query rd be s))
  = [(cn, {| seg_query := query; seg_data := rd |})].
Proof.
  intros Hseg Hq Hmax Hcn Hd. unfold a_add_chunk. mstep.
  unfold getitem. rewrite Hcn. mstep. rewrite decide_False by done.
  mstep. rewrite Hseg. unfold q_put. mstep. unfold id, q_full.
  rewrite Hq, Hmax. cbn [List.length Z.of_nat Z.leb Z.ltb Z.compare andb].
  change (1 <=? Z.of_nat 0) with false. cbv iota.
  rewrite bind_modify. rewrite keeps_q_after_put. cbn [set_q q]. by rewrite Hq.
Qed.

Lemma step_handler be e m m' :
  e ≠ Generate → step be e m = Some m' →
  body m' = body m ∧ gen m' = gen m.
Proof.
  destruct e as [query rd|i|]; [| |done]; intros _; cbn [step].
  - intros [= <-]. unfold arrive.
    by destruct (a_add_chunk query rd be (sess m)) as [[r s] t].
  - unfold resume. destruct (handlers m !! i) as [[[cn query rd|cn|st]|e]|];
      try discriminate.
    + destruct (q_full (sess m)); [discriminate|].
      destruct (q_put cn query rd be (sess m)) as [[r s] t]. by intros [= <-].
    + destruct (wait_for_chunk cn be (sess m)) as [[r s] t]. by intros [= <-].
Qed.

Lemma generate_body m m' :
  generate m = Some m' → ∃ ext, body m' = (body m ++ ext)%list.
Proof.
  unfold generate. destruct (gen m) as [|cn seg| |e]; try discriminate.
  - destruct (coro_upload (sess m)); [|discriminate].
    destruct (q (sess m)) as [|[cn seg] rest]; [discriminate|].
    intros [= <-]. exists []. cbn [body]. by rewrite app_nil_r.
  - destruct (read_chunk (seg_data seg)) as [[|b chunk] rest].
    + destruct (getitem _ "resumableCurrentChunkSize").
      2: { intros [= <-]. exists []. cbn [body]. by rewrite app_nil_r. }
      destruct (getitem _ "resumableTotalChunks"); [case_match|];
        intros [= <-]; exists []; cbn [body]; by rewrite app_nil_r.
    + intros [= <-]. by eexists.
Qed.

Lemma step_leads be e m m' b c seg rd :
  q_maxsize (sess m) = 1 → segmented (sess m) = false →
  seg_data seg = b :: rd → b ≠ [] →
  leads b c seg m → step be e m = Some m' → leads b c seg m'.
Proof.
  intros Hmax Hseg Hdata Hb Hl Hstep.
  destruct Hl as [(Hbody & Hgen & Hq)|[(Hbody & Hgen)|(rest & Hbody)]].
  - (* the entry waits in the queue, which is full *)
    assert (Hfull : q_full (sess m) = true).
    { unfold q_full. by rewrite Hmax, Hq. }
    destruct e as [query rd'|i|]; cbn [step] in Hstep.
    + injection Hstep as <-. left. unfold arrive.
      pose proof (a_add_chunk_queue_full query rd' be _ Hseg Hfull) as Hs.
      destruct (a_add_chunk query rd' be (sess m)) as [[r s] t].
      unfold state_after in Hs. cbn [fst snd] in Hs. subst s. done.
    + unfold resume in Hstep.
      destruct (handlers m !! i) as [[[cn query rd'|cn|st]|e]|];
        try discriminate.
      * by rewrite Hfull in Hstep.
      * left. unfold wait_for_chunk in Hstep. revert Hstep. repeat mstep.
        by destruct (decide _); intros [= <-].
    + unfold generate in Hstep. rewrite Hgen, Hq in Hstep.
      destruct (coro_upload (sess m)); [|discriminate].
      injection Hstep as <-. right. left. done.
  - (* the entry is being read *)
    assert (Hgo : e ≠ Generate → leads b c seg m').
    { intros Hne. destruct (step_handler _ _ _ _ Hne Hstep) as [Hb' Hg'].
      right. left. by rewrite Hb', Hg'. }
    destruct e as [query rd'|i|]; [by apply Hgo..|].
    cbn [step] in Hstep. unfold generate in Hstep.
    rewrite Hgen, Hdata in Hstep. cbn [read_chunk] in Hstep.
    destruct b as [|x b]; [done|]. injection Hstep as <-.
    right. right. exists []. cbn [body]. by rewrite Hbody, app_nil_r.
  - (* the block has been yielded *)
    right. right.
    assert (Hgo : e ≠ Generate → ∃ rest0, body m' = (b ++ rest0)%list).
    { intros Hne. destruct (step_handler _ _ _ _ Hne Hstep) as [-> _].
      by exists rest. }
    destruct e as [query rd'|i|]; [by apply Hgo..|].
    destruct (generate_body _ _ Hstep) as [ext ->].
    exists (rest ++ ext)%list. by rewrite Hbody, app_assoc.
Qed.

Lemma run_leads be es : ∀ m m' b c seg rd,
  q_maxsize (sess m) = 1 → segmented (sess m) = false →
  seg_data seg = b :: rd → b ≠ [] →
  leads b c seg m → run be es m = Some m' → leads b c seg m'.
Proof.
  induction es as [|e es IH]; intros m m' b c seg rd Hmax Hseg Hdata Hb Hl.
  - by intros [= <-].
  - cbn [run]. destruct (step be e m) as [m1|] eqn:Hstep; [|discriminate].
    apply (IH m1 m' b c seg rd); try done.
    + by rewrite (step_keeps_maxsize be e m m1).
    + by rewrite (step_keeps_mode be e m m1).
    + by apply (step_leads be e m m1 b c seg rd).
Qed.

(** Queue of size 1, monolithic mode: whatever comes after the first chunk
    request, in whatever interleaving, the body of the write is empty or
    begins with the first block of the chunk that was submitted first. *)
Theorem first_arrival_leads_body be s query c b rd es m :
  segmented s = false → q_maxsize s = 1 → q s = [] →
  query !! "resumableChunkNUmber" = Some c → c ∉ done_chunks s → b ≠ [] →
  run be es (arrive be query (b :: rd) (start s)) = Some m →
  body m = [] ∨ ∃ rest, body m = (b ++ rest)%list.
Proof.
  intros Hseg Hmax Hq Hc Hd Hb Hrun.
  set (seg := {| seg_query := query; seg_data := b :: rd |}).
  assert (Hl : leads b c seg m).
  { apply (run_leads be es (arrive be query (b :: rd) (start s)) m b c seg rd);
      try done.
    - by rewrite (proj2 (arrive_keeps_mode _ _ _ _)).
    - by rewrite (proj1 (arrive_keeps_mode _ _ _ _)).
    - left. unfold arrive. cbn [start sess].
      pose proof (a_add_chunk_first query (b :: rd) be s c Hseg Hq Hmax Hc Hd)
        as Hk.
      destruct (a_add_chunk query (b :: rd) be s) as [[r s'] t].
      unfold state_after in Hk. by cbn [fst snd sess body gen] in *. }
  destruct Hl as [(Hbody & _)|[(Hbody & _)|Hl]]; auto.
Qed.

(** ** More on the constructor *)

Lemma init_fresh environ a query match_info s :
  init environ a query match_info = Return s →
  q s = [] ∧ done_chunks s = ∅ ∧ total_uploaded s = 0 ∧
  coro_upload s = None.
Proof.
  unfold init. intros Hi.
  repeat match type of Hi with
  | (?o ≫= _) = Return _ =>
      let E := fresh "E" in
      destruct o eqn:E; cbn [mbind outcome_bind] in Hi; [|discriminate Hi]
  end.
  by injection Hi as <-.
Qed.

(** X2.  On the session [__init__] returns, as long as the HEAD of the
    destination is not answered 200, the existence check of every chunk
    number raises 404 Not Found. *)
Theorem fresh_session_probe environ a query match_info s be n :
  init environ a query match_info = Return s →
  status (be (head_request s)) ≠ 200 →
  result (a_check_segment n be s) = Raise HTTPNotFound.
Proof.
  intros Hi Hst. destruct (init_fresh _ _ _ _ _ Hi) as (_ & Hd & _).
  rewrite a_check_segment_eq. unfold result. cbn [fst].
  apply Z.eqb_neq in Hst. rewrite Hst, decide_False; [done|].
  rewrite Hd. apply not_elem_of_empty.
Qed.

(** ** The segmented path of a_add_chunk *)

(** X7.  Segmented mode: a call that ends in a KeyError has made no
    request and has left the session as it was. *)
Theorem segmented_key_error_no_trace q rd be s k :
  segmented s = true →
  result (a_add_chunk q rd be s) = Raise (KeyError k) →
  a_add_chunk q rd be s = (Raise (KeyError k), s, []).
Proof.
  intros Hseg Hres.
  destruct (q !! "resumableChunkNUmber") as [cn|] eqn:Hcn.
  2: { rewrite a_add_chunk_no_key in * by done.
       unfold result in Hres. cbn [fst] in Hres. by rewrite Hres. }
  destruct (decide (cn ∈ done_chunks s)) as [Hd|Hd].
  { by rewrite (a_add_chunk_done _ _ _ _ cn) in Hres. }
  rewrite (a_add_chunk_segmented _ _ _ _ cn) in * by done.
  unfold result in Hres. cbn [fst] in Hres. by rewrite Hres.
Qed.


(** ** The monolithic path of a_add_chunk *)

Lemma q_put_eq cn query rd be s :
  q_put cn query rd be s =
  if q_full s then (Return (Putting cn query rd), s, [])
  else
    let s1 := set_q (q_insert (cn, {| seg_query := query; seg_data := rd |})
                              (q s)) s in
    let h := if decide (cn ∈ done_chunks s) then Responded 201
             else Waiting cn in
    if decide (done_chunks s = ∅) then
      match query !! "resumableTotalSize" with
      | None => (Raise (KeyError "resumableTotalSize"), s1, [])
      | Some len =>
          (Return h, set_coro_upload (Some (upload_request s1 len)) s1,
           [upload_request s1 len])
      end
    else (Return h, s1, []).
Proof.
  unfold q_put. mstep. unfold id. destruct (q_full s); [done|].
  rewrite bind_modify. unfold after_put. rewrite bind_gets.
  cbn [set_q done_chunks]. cbv zeta.
  destruct (decide (done_chunks s = ∅)) as [He|He].
  - rewrite bind_assoc, bind_lift. unfold getitem.
    destruct (query !! "resumableTotalSize") as [len|]; [|done].
    rewrite bind_assoc, bind_gets. unfold id.
    rewrite bind_assoc, bind_send. rewrite bind_modify.
    unfold wait_for_chunk. rewrite bind_gets.
    unfold result, state_after, requests.
    by destruct (decide _).
  - rewrite bind_ret. unfold wait_for_chunk. rewrite bind_gets.
    by destruct (decide _).
Qed.

Lemma a_add_chunk_monolithic query rd be s cn :
  query !! "resumableChunkNUmber" = Some cn → cn ∉ done_chunks s →
  segmented s = false →
  a_add_chunk query rd be s = q_put cn query rd be s.
Proof.
  intros Hq Hn Hseg. unfold a_add_chunk. mstep. unfold getitem. rewrite Hq.
  mstep. rewrite decide_False by done. mstep. by rewrite Hseg.
Qed.

Lemma monolithic_arrival_accounting_aux query rd be s :
  segmented s = false →
  requests (a_add_chunk query rd be s) = [] ∨ done_chunks s = ∅.
Proof.
  intros Hseg.
  destruct (query !! "resumableChunkNUmber") as [cn|] eqn:Hq.
  2: { left. by rewrite a_add_chunk_no_key. }
  destruct (decide (cn ∈ done_chunks s)) as [Hd|Hd].
  { left. by rewrite (a_add_chunk_done _ _ _ _ cn). }
  rewrite (a_add_chunk_monolithic _ _ _ _ cn), q_put_eq by done. cbv zeta.
  destruct (decide (done_chunks s = ∅)); [by right|left].
  by case_match.
Qed.

(** X9.  Monolithic mode: a call of [a_add_chunk], up to the point where
    it first gives up control, changes neither [done_chunks] nor
    [total_uploaded] and never answers 201; and it creates a write only
    when [done_chunks] is empty. *)
Theorem monolithic_arrival_accounting query rd be s :
  segmented s = false →
  let r := a_add_chunk query rd be s in
  done_chunks (state_after r) = done_chunks s ∧
  total_uploaded (state_after r) = total_uploaded s ∧
  result r ≠ Return (Responded 201) ∧
  (requests r ≠ [] → done_chunks s = ∅).
Proof.
  intros Hseg. cbv zeta.
  assert (Hfin : ∀ (o : outcome handler) s' t,
            done_chunks s' = done_chunks s →
            total_uploaded s' = total_uploaded s →
            o ≠ Return (Responded 201) →
            (t = [] ∨ done_chunks s = ∅) →
            done_chunks (state_after (o, s', t)) = done_chunks s ∧
            total_uploaded (state_after (o, s', t)) = total_uploaded s ∧
            result (o, s', t) ≠ Return (Responded 201) ∧
            (requests (o, s', t) ≠ [] → done_chunks s = ∅)).
  { intros o s' t Hd Hu Ho Ht. unfold result, state_after, requests.
    cbn [fst snd]. split; [done|]. split; [done|]. split; [done|].
    intros Hne. by destruct Ht. }
  destruct (query !! "resumableChunkNUmber") as [cn|] eqn:Hq.
  2: { rewrite a_add_chunk_no_key by done. apply Hfin; auto. }
  destruct (decide (cn ∈ done_chunks s)) as [Hd|Hd].
  { rewrite (a_add_chunk_done _ _ _ _ cn) by done. apply Hfin; auto. }
  rewrite (a_add_chunk_monolithic _ _ _ _ cn), q_put_eq by done. cbv zeta.
  rewrite (decide_False (P := cn ∈ done_chunks s)) by done.
  repeat case_match; apply Hfin; auto.
Qed.


(** ** What the calls never undo *)

Lemma extends_ret {A} (a : A) : extends_done (mret a).
Proof. by intros be s. Qed.

Lemma extends_raise {A} e : extends_done (raise (A:=A) e).
Proof. by intros be s. Qed.

Lemma extends_lift {A} (o : outcome A) : extends_done (lift o).
Proof. by intros be s. Qed.

Lemma extends_gets {A} (g : session → A) : extends_done (gets g).
Proof. by intros be s. Qed.

Lemma extends_send r : extends_done (send r).
Proof. by intros be s. Qed.

Lemma extends_modify g :
  (∀ s, done_chunks s ⊆ done_chunks (g s)) → extends_done (modify g).
Proof. intros Hg be s. apply Hg. Qed.

Lemma extends_bind {A B} (c : M A) (k : A → M B) :
  extends_done c → (∀ a, extends_done (k a)) → extends_done (c ≫= k).
Proof.
  intros Hc Hk be s. rewrite bind_run. specialize (Hc be s).
  destruct (c be s) as [[[a|e] s1] t1]; [|done].
  unfold state_after in *. cbn [fst snd] in *.
  etrans; [exact Hc|]. apply Hk.
Qed.

Lemma extends_if {A} (b : bool) (c1 c2 : M A) :
  extends_done c1 → extends_done c2 → extends_done (if b then c1 else c2).
Proof. by destruct b. Qed.

Lemma extends_decide {A} P `{Decision P} (c1 c2 : M A) :
  extends_done c1 → extends_done c2 →
  extends_done (if decide P then c1 else c2).
Proof. by destruct (decide P). Qed.

Ltac extends :=
  repeat first
    [ apply extends_ret | apply extends_raise | apply extends_lift
    | apply extends_gets | apply extends_send
    | apply extends_modify; intros; unfold done_add, uploaded_add;
      cbn [done_chunks set_done_chunks set_total_uploaded set_q
           set_coro_upload];
      first [done | apply union_subseteq_l]
    | apply extends_if | apply extends_decide
    | apply extends_bind; [|intros ?] ].

Lemma extends_add_segments segments : extends_done (add_segments segments).
Proof. induction segments; cbn [add_segments]; extends; assumption. Qed.

Lemma extends_a_sync_segments : extends_done a_sync_segments.
Proof. unfold a_sync_segments. extends; apply extends_add_segments. Qed.

Lemma extends_wait_for_chunk n : extends_done (wait_for_chunk n).
Proof. unfold wait_for_chunk. extends. Qed.

Lemma extends_q_put n query rd : extends_done (q_put n query rd).
Proof. unfold q_put, after_put, wait_for_chunk. extends. Qed.

Lemma extends_a_add_chunk query rd : extends_done (a_add_chunk query rd).
Proof.
  unfold a_add_chunk, a_add_manifest, q_put, after_put, wait_for_chunk.
  extends.
Qed.

Lemma step_extends_done be e m m' :
  step be e m = Some m' → done_chunks (sess m) ⊆ done_chunks (sess m').
Proof.
  destruct e as [query rd|i|]; cbn [step].
  - intros [= <-]. unfold arrive.
    pose proof (extends_a_add_chunk query rd be (sess m)) as Hk.
    by destruct (a_add_chunk query rd be (sess m)) as [[r s] t].
  - unfold resume.
    destruct (handlers m !! i) as [[[cn query rd|cn|st]|e]|];
      try discriminate.
    + destruct (q_full (sess m)); [discriminate|].
      pose proof (extends_q_put cn query rd be (sess m)) as Hk.
      destruct (q_put cn query rd be (sess m)) as [[r s] t].
      by intros [= <-].
    + pose proof (extends_wait_for_chunk cn be (sess m)) as Hk.
      destruct (wait_for_chunk cn be (sess m)) as [[r s] t].
      by intros [= <-].
  - unfold generate. destruct (gen m) as [|cn seg| |e]; try discriminate.
    + destruct (coro_upload (sess m)); [|discriminate].
      destruct (q (sess m)) as [|[cn seg] rest]; [discriminate|].
      by intros [= <-].
    + destruct (read_chunk (seg_data seg)) as [[|b chunk] rest].
      * destruct (getitem _ "resumableCurrentChunkSize");
          [|by intros [= <-]].
        destruct (getitem _ "resumableTotalChunks"); [case_match|];
          intros [= <-]; cbn [sess done_add uploaded_add done_chunks
                              set_done_chunks set_total_uploaded];
          apply union_subseteq_l.
      * by intros [= <-].
Qed.

Lemma run_extends_done be es : ∀ m m',
  run be es m = Some m' → done_chunks (sess m) ⊆ done_chunks (sess m').
Proof.
  induction es as [|e es IH]; intros m m'; cbn [run].
  - by intros [= <-].
  - destruct (step be e m) as [m1|] eqn:Hstep; [|discriminate].
    intros Hrun. etrans; [by eapply step_extends_done|by apply IH].
Qed.

(** X8.  A chunk number that is in [done_chunks] stays there: no method
    of the session, and no run of the tasks of an upload, removes one. *)
Theorem done_chunks_never_shrinks :
  extends_done a_sync_segments ∧
  (∀ n, extends_done (a_check_segment n)) ∧
  extends_done a_add_manifest ∧
  (∀ query rd, extends_done (a_add_chunk query rd)) ∧
  (∀ be es m m', run be es m = Some m' →
     done_chunks (sess m) ⊆ done_chunks (sess m')).
Proof.
  split; [apply extends_a_sync_segments|].
  split; [intros n; unfold a_check_segment; extends|].
  split; [unfold a_add_manifest; extends|].
  split; [apply extends_a_add_chunk|]. apply run_extends_done.
Qed.

(** ** The queue *)

Lemma length_q_insert e l :
  List.length (q_insert e l) = S (List.length l).
Proof.
  induction l as [|x l IH]; [done|]. cbn [q_insert].
  destruct (e.1 <? x.1); cbn [List.length]; by rewrite ?IH.
Qed.

Lemma elem_of_q_insert e l x : x ∈ q_insert e l ↔ x = e ∨ x ∈ l.
Proof.
  induction l as [|y l IH]; cbn [q_insert].
  - rewrite list_elem_of_singleton, elem_of_nil. tauto.
  - destruct (e.1 <? y.1).
    + by rewrite elem_of_cons.
    + rewrite !elem_of_cons, IH. tauto.
Qed.

Lemma q_insert_sorted e l :
  StronglySorted Z.le (l.*1) → StronglySorted Z.le ((q_insert e l).*1).
Proof.
  induction l as [|y l IH]; intros Hs; cbn [q_insert].
  - repeat constructor.
  - cbn [fmap list_fmap] in Hs. apply StronglySorted_inv in Hs as [Hs Hall].
    destruct (Z.ltb_spec e.1 y.1) as [Hlt|Hge]; cbn [fmap list_fmap].
    + constructor; [by constructor|]. constructor; [lia|].
      eapply Forall_impl; [exact Hall|]. intros z ?. cbn in *. lia.
    + constructor; [by apply IH|].
      apply Forall_forall. intros z Hz.
      apply list_elem_of_fmap in Hz as (x & -> & Hx).
      apply elem_of_q_insert in Hx as [->|Hx]; [done|].
      rewrite Forall_forall in Hall. apply Hall.
      apply list_elem_of_fmap. by exists x.
Qed.

Lemma q_put_queue cn query rd be s :
  q (state_after (q_put cn query rd be s)) = q s ∨
  (q_full s = false ∧
   q (state_after (q_put cn query rd be s))
   = q_insert (cn, {| seg_query := query; seg_data := rd |}) (q s)).
Proof.
  rewrite q_put_eq. destruct (q_full s); [by left|]. right.
  split; [done|]. cbv zeta. by repeat case_match.
Qed.

Lemma a_add_chunk_queue query rd be s :
  q (state_after (a_add_chunk query rd be s)) = q s ∨
  ∃ cn, q_full s = false ∧
        q (state_after (a_add_chunk query rd be s))
        = q_insert (cn, {| seg_query := query; seg_data := rd |}) (q s).
Proof.
  destruct (query !! "resumableChunkNUmber") as [cn|] eqn:Hq.
  2: { left. by rewrite a_add_chunk_no_key. }
  destruct (decide (cn ∈ done_chunks s)) as [Hd|Hd].
  { left. by rewrite (a_add_chunk_done _ _ _ _ cn). }
  destruct (segmented s) eqn:Hseg.
  - left. rewrite (a_add_chunk_segmented _ _ _ _ cn) by done. cbv zeta.
    by repeat case_match.
  - rewrite (a_add_chunk_monolithic _ _ _ _ cn) by done.
    destruct (q_put_queue cn query rd be s) as [?|[??]]; [by left|].
    right. by exists cn.
Qed.

(** How a step changes the queue: not at all, by one insertion into a
    queue that is not full, or by popping its head. *)
Lemma step_queue be e m m' :
  step be e m = Some m' →
  q (sess m') = q (sess m) ∨
  (∃ x, q_full (sess m) = false ∧ q (sess m') = q_insert x (q (sess m))) ∨
  (∃ cn seg, gen m = Idle ∧ gen m' = Reading cn seg ∧
             q (sess m) = (cn, seg) :: q (sess m')).
Proof.
  destruct e as [query rd|i|]; cbn [step].
  - intros [= <-]. unfold arrive.
    destruct (a_add_chunk_queue query rd be (sess m)) as [Hq|(cn & Hf & Hq)];
      destruct (a_add_chunk query rd be (sess m)) as [[r s] t];
      unfold state_after in Hq; cbn [fst snd sess] in *; eauto.
  - unfold resume.
    destruct (handlers m !! i) as [[[cn query rd|cn|st]|e]|];
      try discriminate.
    + destruct (q_full (sess m)) eqn:Hfull; [discriminate|].
      destruct (q_put_queue cn query rd be (sess m)) as [Hq|[Hf Hq]];
        destruct (q_put cn query rd be (sess m)) as [[r s] t];
        unfold state_after in Hq; cbn [fst snd] in Hq;
        intros [= <-]; cbn [sess]; eauto.
    + unfold wait_for_chunk. repeat mstep.
      destruct (decide _); intros [= <-]; by left.
  - unfold generate. destruct (gen m) as [|cn seg| |e]; try discriminate.
    + destruct (coro_upload (sess m)); [|discriminate].
      destruct (q (sess m)) as [|[cn seg] rest] eqn:Hq; [discriminate|].
      intros [= <-]. right. right. exists cn, seg. by cbn.
    + destruct (read_chunk (seg_data seg)) as [[|b chunk] rest].
      * destruct (getitem _ "resumableCurrentChunkSize");
          [|intros [= <-]; by left].
        destruct (getitem _ "resumableTotalChunks"); [case_match|];
          intros [= <-]; by left.
      * intros [= <-]. by left.
Qed.

Lemma step_q_bounded be e m m' :
  step be e m = Some m' → q_bounded (sess m) → q_bounded (sess m').
Proof.
  intros Hstep Hb. unfold q_bounded in *.
  rewrite (step_keeps_maxsize _ _ _ _ Hstep).
  destruct (step_queue _ _ _ _ Hstep)
    as [->|[(x & Hfull & ->)|(cn & seg & _ & _ & Hq)]]; [done| |].
  - intros Hpos. rewrite length_q_insert. unfold q_full in Hfull.
    destruct (Z.ltb_spec 0 (q_maxsize (sess m))); [|lia].
    destruct (Z.leb_spec (q_maxsize (sess m))
                (Z.of_nat (List.length (q (sess m))))); [done|]. lia.
  - intros Hpos. specialize (Hb Hpos). rewrite Hq in Hb.
    cbn [List.length] in Hb. lia.
Qed.

Lemma step_q_sorted be e m m' :
  step be e m = Some m' → q_sorted (sess m) → q_sorted (sess m').
Proof.
  intros Hstep Hs. unfold q_sorted in *.
  destruct (step_queue _ _ _ _ Hstep)
    as [->|[(x & Hfull & ->)|(cn & seg & _ & _ & Hq)]]; [done| |].
  - by apply q_insert_sorted.
  - rewrite Hq in Hs. cbn [fmap list_fmap] in Hs.
    by apply StronglySorted_inv in Hs as [Hs _].
Qed.

(** X10.  The queue never holds more entries than its size allows: a
    bound that holds of the session holds after every run of the tasks of
    an upload (a size of zero or less means no bound). *)
Theorem queue_stays_bounded be es : ∀ m m',
  q_bounded (sess m) → run be es m = Some m' → q_bounded (sess m').
Proof.
  induction es as [|e es IH]; intros m m' Hb; cbn [run].
  - by intros [= <-].
  - destruct (step be e m) as [m1|] eqn:Hstep; [|discriminate].
    apply IH. by apply (step_q_bounded be e m).
Qed.

Lemma run_q_sorted be es : ∀ m m',
  q_sorted (sess m) → run be es m = Some m' → q_sorted (sess m').
Proof.
  induction es as [|e es IH]; intros m m' Hb; cbn [run].
  - by intros [= <-].
  - destruct (step be e m) as [m1|] eqn:Hstep; [|discriminate].
    apply IH. by apply (step_q_sorted be e m).
Qed.

(** X11.  The queue stays ordered by chunk number through every run of
    the tasks, so that whenever the generator takes an entry, its chunk
    number is the least of those that were queued at that moment. *)
Theorem generator_pops_least be es m m' m'' :
  q_sorted (sess m) → run be es m = Some m' →
  gen m' = Idle → generate m' = Some m'' →
  ∃ cn seg, gen m'' = Reading cn seg ∧
            q (sess m') = (cn, seg) :: q (sess m'') ∧
            ∀ x, x ∈ q (sess m') → cn ≤ x.1.
Proof.
  intros Hs Hrun Hidle Hgen.
  pose proof (run_q_sorted be es m m' Hs Hrun) as Hs'.
  unfold generate in Hgen. rewrite Hidle in Hgen.
  destruct (coro_upload (sess m')); [|discriminate].
  destruct (q (sess m')) as [|[cn seg] rest] eqn:Hq; [discriminate|].
  injection Hgen as <-. exists cn, seg. cbn [gen sess set_q q].
  split; [done|]. split; [done|].
  unfold q_sorted in Hs'. rewrite Hq in Hs'. cbn [fmap list_fmap] in Hs'.
  apply StronglySorted_inv in Hs' as [_ Hall]. rewrite Forall_forall in Hall.
  intros x Hx. apply elem_of_cons in Hx as [->|Hx]; [done|].
  apply Hall. apply list_elem_of_fmap. by exists x.
Qed.

(** ** The body and the writes *)

Lemma step_no_more_writes be e m m' :
  segmented (sess m) = false → done_chunks (sess m) ≠ ∅ →
  step be e m = Some m' → sent m' = sent m.
Proof.
  intros Hseg Hne. destruct e as [query rd|i|]; cbn [step].
  - intros [= <-]. unfold arrive.
    destruct (monolithic_arrival_accounting_aux query rd be (sess m) Hseg)
      as [Hreq|He]; [|done].
    destruct (a_add_chunk query rd be (sess m)) as [[r s] t].
    unfold requests in Hreq. cbn [snd] in Hreq. subst t. cbn [sent].
    by rewrite app_nil_r.
  - unfold resume.
    destruct (handlers m !! i) as [[[cn query rd|cn|st]|e]|];
      try discriminate.
    + destruct (q_full (sess m)) eqn:Hfull; [discriminate|].
      rewrite q_put_eq, Hfull. cbv zeta.
      rewrite (decide_False (P := done_chunks (sess m) = ∅)) by done.
      intros [= <-]. cbn [sent]. by rewrite app_nil_r.
    + unfold wait_for_chunk. repeat mstep.
      destruct (decide _); intros [= <-]; cbn [sent]; by rewrite app_nil_r.
  - unfold generate. destruct (gen m) as [|cn seg| |e]; try discriminate.
    + destruct (coro_upload (sess m)); [|discriminate].
      destruct (q (sess m)) as [|[cn seg] rest]; [discriminate|].
      by intros [= <-].
    + destruct (read_chunk (seg_data seg)) as [[|b chunk] rest].
      * destruct (getitem _ "resumableCurrentChunkSize");
          [|by intros [= <-]].
        destruct (getitem _ "resumableTotalChunks"); [case_match|];
          by intros [= <-].
      * by intros [= <-].
Qed.

(** X13.  Monolithic mode: once a chunk is in [done_chunks], no run of
    the tasks makes another request: no further write is created. *)
Theorem no_write_after_first_chunk be es : ∀ m m',
  segmented (sess m) = false → done_chunks (sess m) ≠ ∅ →
  run be es m = Some m' → sent m' = sent m.
Proof.
  induction es as [|e es IH]; intros m m' Hseg Hne; cbn [run].
  - by intros [= <-].
  - destruct (step be e m) as [m1|] eqn:Hstep; [|discriminate].
    intros Hrun. rewrite (IH m1 m'); [| | |done].
    + by apply (step_no_more_writes be e m).
    + by rewrite (step_keeps_mode _ _ _ _ Hstep).
    + pose proof (step_extends_done _ _ _ _ Hstep) as Hsub.
      intros He. rewrite He in Hsub. apply Hne.
      apply leibniz_equiv. apply equiv_empty. exact Hsub.
Qed.

(** ** A monolithic upload that nothing consumes *)

Lemma q_put_without_consumer cn query rd be s :
  done_chunks s = ∅ →
  let r := q_put cn query rd be s in
  done_chunks (state_after r) = ∅ ∧
  total_uploaded (state_after r) = total_uploaded s ∧
  ∀ st, result r ≠ Return (Responded st).
Proof.
  intros Hd. cbv zeta. rewrite q_put_eq. cbv zeta.
  rewrite (decide_False (P := cn ∈ done_chunks s))
    by (rewrite Hd; apply not_elem_of_empty).
  rewrite (decide_True (P := done_chunks s = ∅)) by done.
  unfold result, state_after.
  destruct (q_full s); [done|].
  by destruct (query !! "resumableTotalSize").
Qed.

Lemma a_add_chunk_without_consumer query rd be s :
  segmented s = false → done_chunks s = ∅ →
  let r := a_add_chunk query rd be s in
  done_chunks (state_after r) = ∅ ∧
  total_uploaded (state_after r) = total_uploaded s ∧
  ∀ st, result r ≠ Return (Responded st).
Proof.
  intros Hseg Hd. cbv zeta.
  destruct (query !! "resumableChunkNUmber") as [cn|] eqn:Hq.
  2: { by rewrite a_add_chunk_no_key. }
  rewrite (a_add_chunk_monolithic _ _ _ _ cn);
    [by apply q_put_without_consumer|done| |done].
  rewrite Hd. apply not_elem_of_empty.
Qed.

Lemma step_without_consumer be e m m' :
  e ≠ Generate →
  segmented (sess m) = false → done_chunks (sess m) = ∅ →
  step be e m = Some m' →
  done_chunks (sess m') = ∅ ∧
  total_uploaded (sess m') = total_uploaded (sess m) ∧
  body m' = body m ∧
  ∀ i st, handlers m' !! i = Some (Return (Responded st)) →
          handlers m !! i = Some (Return (Responded st)).
Proof.
  intros Hne Hseg Hd. destruct e as [query rd|i|]; [| |done]; cbn [step].
  - intros [= <-]. unfold arrive.
    destruct (a_add_chunk_without_consumer query rd be (sess m) Hseg Hd)
      as (Hd' & Hu' & Hr').
    destruct (a_add_chunk query rd be (sess m)) as [[r s] t].
    unfold result, state_after in *. cbn [fst snd sess body handlers] in *.
    repeat (split; [done|]). intros i st Hi.
    apply lookup_app_Some in Hi as [Hi|[_ Hi]]; [done|].
    apply list_lookup_singleton_Some in Hi as [_ Hi]. by destruct (Hr' st).
  - unfold resume.
    destruct (handlers m !! i) as [[[cn query rd|cn|st]|e]|] eqn:Hi;
      try discriminate.
    + destruct (q_full (sess m)); [discriminate|].
      destruct (q_put_without_consumer cn query rd be (sess m) Hd)
        as (Hd' & Hu' & Hr').
      destruct (q_put cn query rd be (sess m)) as [[r s] t].
      intros [= <-].
      unfold result, state_after in *. cbn [fst snd sess body handlers] in *.
      repeat (split; [done|]). intros j st Hj.
      apply list_lookup_insert_Some in Hj as [(_ & Hj & _)|[_ Hj]]; [|done].
      by destruct (Hr' st).
    + unfold wait_for_chunk. rewrite bind_gets.
      rewrite decide_False by (rewrite Hd; apply not_elem_of_empty).
      intros [= <-]. cbn [sess body handlers].
      repeat (split; [done|]). intros j st Hj.
      by apply list_lookup_insert_Some in Hj as [(_ & ? & _)|[_ Hj]].
Qed.

(** X19.  Monolithic mode, nothing in [done_chunks]: as long as nothing
    consumes the generator, which nothing in the module does, no run of
    the handlers puts a chunk in [done_chunks], counts a byte, yields a
    byte or answers a request: the chunk requests stay suspended in
    [q.put] or in [wait_for_chunk], or end in a KeyError. *)
Theorem no_answer_without_consumer be es : ∀ m m',
  segmented (sess m) = false → done_chunks (sess m) = ∅ →
  Forall (λ e, e ≠ Generate) es →
  run be es m = Some m' →
  done_chunks (sess m') = ∅ ∧
  total_uploaded (sess m') = total_uploaded (sess m) ∧
  body m' = body m ∧
  ∀ i st, handlers m' !! i = Some (Return (Responded st)) →
          handlers m !! i = Some (Return (Responded st)).
Proof.
  induction es as [|e es IH]; intros m m' Hseg Hd Hes; cbn [run].
  - by intros [= <-].
  - apply Forall_cons in Hes as [He Hes].
    destruct (step be e m) as [m1|] eqn:Hstep; [|discriminate].
    intros Hrun.
    destruct (step_without_consumer _ _ _ _ He Hseg Hd Hstep)
      as (Hd1 & Hu1 & Hb1 & Hh1).
    destruct (IH m1 m') as (Hd' & Hu' & Hb' & Hh'); try done.
    { by rewrite (step_keeps_mode _ _ _ _ Hstep). }
    split; [done|]. split; [congruence|]. split; [congruence|]. eauto.
Qed.

End Properties.

(* ===================================================================== *)
(** * The example deployment                                              *)
(* ===================================================================== *)

Import Example.

(** C1.  A four-byte file in two chunks, chunk 1 submitted before chunk 0,
    queue of size 1.  Whatever happens after the first request, in whatever
    interleaving, the body of the write is never chunk 0 followed by
    chunk 1.  Sent one at a time, the requests are both answered 201 and
    one write is made, whose body is chunk 1 followed by chunk 0.  Sent
    together, the body is the same and the write is created twice.  With
    the documented parameters only, both calls end in a KeyError and no
    write is created. *)
Theorem monolithic_body_in_arrival_order :
  let s := session_of 4 2 in
  let ordered := [x61; x62; x63; x64] in
  let run_of es := run (always 201) es (start s) in
  segmented s = false ∧ q_maxsize s = 1 ∧
  (∀ es m, run_of (Arrive (chunk_query' 1 2 4 2) chunk1 :: es) = Some m →
           body m ≠ ordered) ∧
  body <$> run_of one_at_a_time = Some [x63; x64; x61; x62] ∧
  handlers <$> run_of one_at_a_time
    = Some [Return (Responded 201); Return (Responded 201)] ∧
  gen <$> run_of one_at_a_time = Some Finished ∧
  sent <$> run_of one_at_a_time = Some [upload_request s 4] ∧
  body <$> run_of both_at_once = Some [x63; x64; x61; x62] ∧
  sent <$> run_of both_at_once
    = Some [upload_request s 4; upload_request s 4] ∧
  handlers <$> run_of as_documented
    = Some [Raise (KeyError "resumableChunkNUmber");
            Raise (KeyError "resumableChunkNUmber")] ∧
  sent <$> run_of as_documented = Some [].
Proof.
  cbv zeta. split; [done|]. split; [done|]. split.
  - intros es m Hrun. cbn [run step] in Hrun.
    assert (Hq : chunk_query' 1 2 4 2 !! "resumableChunkNUmber" = Some 1)
      by (by vm_compute).
    assert (Hd : 1 ∉ done_chunks (session_of 4 2))
      by apply not_elem_of_empty.
    assert (Hne : [x63] ≠ []) by done.
    destruct (first_arrival_leads_body (always 201) (session_of 4 2)
                (chunk_query' 1 2 4 2) 1 [x63] [[x64]] es m
                eq_refl eq_refl eq_refl Hq Hd Hne Hrun)
      as [Hb|[rest Hb]]; by rewrite Hb.
  - repeat split; by vm_compute.
Qed.

Lemma monolithic_body_in_arrival_order_witness :
  run (always 201) one_at_a_time (start (session_of 4 2)) ≠ None ∧
  body <$> run (always 201) one_at_a_time (start (session_of 4 2))
    ≠ Some [x61; x62; x63; x64].
Proof.
  split; [by vm_compute|].
  destruct monolithic_body_in_arrival_order as (_ & _ & Hnever & _).
  destruct (run (always 201) one_at_a_time (start (session_of 4 2)))
    as [m|] eqn:Hrun; [|by vm_compute].
  intros [= Hbody]. by apply (Hnever _ m Hrun).
Defined.

(** ** The theorems at concrete inputs *)

Lemma a_add_chunk_documented_query_witness :
  dom (chunk_query 0 2 4 2) ⊆ documented ∧
  a_add_chunk (chunk_query 0 2 4 2) chunk0 (always 201) (session_of 4 2)
  = (Raise (KeyError "resumableChunkNUmber"), session_of 4 2, []).
Proof.
  assert (Hdom : dom (chunk_query 0 2 4 2) ⊆ documented).
  { apply (bool_decide_unpack _). vm_compute. exact I. }
  split; [exact Hdom|].
  exact (proj1 (a_add_chunk_documented_query
                  (chunk_query 0 2 4 2) chunk0 (always 201) (session_of 4 2)
                  Hdom)).
Defined.

Lemma a_check_segment_order_witness :
  result (a_check_segment 7 (always 200) (session_of 4 2)) = Return 200 ∧
  result (a_check_segment 7 (always 404) (session_of 4 2))
  = Raise HTTPNotFound.
Proof.
  split.
  - destruct (a_check_segment_order 7 (always 200) (session_of 4 2))
      as (_ & _ & Hhead & _). apply Hhead. reflexivity.
  - destruct (a_check_segment_order 7 (always 404) (session_of 4 2))
      as (_ & _ & _ & _ & Hnone). apply Hnone.
    + vm_compute. discriminate.
    + apply not_elem_of_empty.
Defined.

Lemma a_check_segment_head_errors_witness :
  a_check_segment 7 (always 500) (session_of 4 2)
  = a_check_segment 7 (always 404) (session_of 4 2).
Proof.
  apply (a_check_segment_head_errors 7 (always 500) (always 404)
           (session_of 4 2)); vm_compute; discriminate.
Defined.

Lemma a_add_chunk_resend_done_witness :
  0 ∈ done_chunks after_chunk0 ∧
  a_add_chunk (chunk_query 0 half five_gib 2) chunk0 (always 201) after_chunk0
  = (Raise (KeyError "resumableChunkNUmber"), after_chunk0, []) ∧
  a_add_chunk (chunk_query' 0 half five_gib 2) chunk0 (always 201) after_chunk0
  = (Return (Responded 200), after_chunk0, []).
Proof.
  assert (Hin : 0 ∈ done_chunks after_chunk0).
  { apply (bool_decide_unpack _). vm_compute. exact I. }
  split; [exact Hin|]. split.
  - apply (a_add_chunk_resend_done _ chunk0 (always 201) after_chunk0 0 Hin).
    + vm_compute. reflexivity.
    + apply (bool_decide_unpack _). vm_compute. exact I.
  - apply (a_add_chunk_resend_done _ chunk0 (always 201) after_chunk0 0 Hin);
      vm_compute; reflexivity.
Defined.

Lemma segmented_fixed_at_creation_witness :
  (∃ s, init ∅ "tok" (first_query "1048576" "5368709119" "5120") match_info
          = Return s ∧ segmented s = false) ∧
  (∃ s, init ∅ "tok" (first_query "1048576" "5368709120" "5120") match_info
          = Return s ∧ segmented s = true).
Proof.
  destruct (@segmented_fixed_at_creation store) as [Hinit _]. split.
  - destruct (init (H:=store) ∅ "tok"
                (first_query "1048576" "5368709119" "5120") match_info)
      as [s|e] eqn:Hi; [|vm_compute in Hi; discriminate Hi].
    exists s. split; [reflexivity|].
    destruct (Hinit _ _ _ _ _ Hi) as [Hsz Hiff].
    change (@Return Z 5368709119 = Return (total_size s)) in Hsz.
    injection Hsz as Hsz.
    destruct (segmented s); [|reflexivity].
    pose proof (proj1 Hiff eq_refl) as Hle. rewrite <- Hsz in Hle. lia.
  - destruct (init (H:=store) ∅ "tok"
                (first_query "1048576" "5368709120" "5120") match_info)
      as [s|e] eqn:Hi; [|vm_compute in Hi; discriminate Hi].
    exists s. split; [reflexivity|].
    destruct (Hinit _ _ _ _ _ Hi) as [Hsz Hiff].
    change (@Return Z 5368709120 = Return (total_size s)) in Hsz.
    injection Hsz as Hsz.
    apply Hiff. rewrite <- Hsz. lia.
Defined.

Lemma segment_name_value_error_witness :
  segment_name "dir/a.txt" 7 = Raise ValueError ∧
  format format_beyond 7 "08d" = Return "00000007" ∧
  a_add_chunk (chunk_query' 7 2 five_gib 2560) chunk0 (always 201)
              (session_of five_gib 2560)
  = (Raise ValueError, session_of five_gib 2560, []).
Proof.
  split; [exact (proj1 (segment_name_value_error "dir/a.txt" 7))|].
  split; [exact (proj2 (segment_name_value_error "dir/a.txt" 7))|].
  by vm_compute.
Defined.

Lemma a_add_chunk_never_times_out_witness :
  let s := session_of five_gib 2 in
  let query := chunk_query' 0 half five_gib 2 in
  segmented s = true ∧
  a_add_chunk query chunk0 (always 408) s = (Raise ValueError, s, []) ∧
  a_add_chunk query chunk0 (always 201) s = (Raise ValueError, s, []).
Proof.
  cbv zeta. split; [reflexivity|].
  destruct (a_add_chunk_never_times_out (chunk_query' 0 half five_gib 2)
              chunk0 (always 408) (session_of five_gib 2) eq_refl)
    as (Ht & Hs & _ & _ & Hagain & Hv).
  destruct (Hv 0 0) as [Hr _].
  { by vm_compute. }
  { apply not_elem_of_empty. }
  { by vm_compute. }
  assert (Hcall : a_add_chunk (chunk_query' 0 half five_gib 2) chunk0
                    (always 408) (session_of five_gib 2)
                  = (Raise ValueError, session_of five_gib 2, [])).
  { destruct (a_add_chunk _ chunk0 (always 408) _) as [[o s'] t].
    unfold result, state_after, requests in Hr, Hs, Ht.
    cbn [fst snd] in Hr, Hs, Ht. by subst. }
  split; [exact Hcall|].
  specialize (Hagain (always 201)). rewrite Hs in Hagain.
  by rewrite Hagain.
Defined.

Lemma manifest_failure_never_reached_witness :
  let s := session_of five_gib 1 in
  let query := chunk_query' 0 five_gib five_gib 1 in
  status (rejecting_manifest (manifest_request s)) = 500 ∧
  total_uploaded s + five_gib = total_size s ∧
  a_add_chunk query chunk0 rejecting_manifest s = (Raise ValueError, s, []) ∧
  a_add_manifest rejecting_manifest s
  = (Raise HTTPBadRequest, s, [manifest_request s]).
Proof.
  cbv zeta. split; [reflexivity|]. split; [reflexivity|].
  destruct (manifest_failure_never_reached
              (chunk_query' 0 five_gib five_gib 1) chunk0 rejecting_manifest
              (session_of five_gib 1))
    as (Ht & Hs & _ & Hv & Hmanifest & _).
  - reflexivity.
  - vm_compute. discriminate.
  - split; [|exact Hmanifest].
    destruct (Hv 0 0) as [Hr _].
    { by vm_compute. }
    { apply not_elem_of_empty. }
    { by vm_compute. }
    destruct (a_add_chunk _ chunk0 rejecting_manifest _) as [[o s'] t].
    unfold result, state_after, requests in Hr, Hs, Ht.
    cbn [fst snd] in Hr, Hs, Ht. by subst.
Defined.

Lemma a_sync_segments_type_error_witness :
  let s := session_of five_gib 2 in
  text (listing_of two_segments (listing_request s)) = two_segments ∧
  a_sync_segments (listing_of two_segments) s
  = (Raise TypeError, s, [listing_request s]).
Proof.
  cbv zeta. split; [reflexivity|].
  destruct (a_sync_segments_type_error (listing_of two_segments)
              (session_of five_gib 2)) as (Hr & _ & Ht & Hs).
  destruct (a_sync_segments _ _) as [[o s'] t].
  unfold result, state_after, requests in Hr, Hs, Ht.
  cbn [fst snd] in Hr, Hs, Ht. by subst.
Defined.

(** ** The further properties at concrete inputs *)

Lemma fresh_session_probe_witness :
  init ∅ "tok" (first_query "2" "4" "2") match_info = Return (session_of 4 2) ∧
  result (a_check_segment 0 (always 404) (session_of 4 2))
  = Raise HTTPNotFound.
Proof.
  assert (Hi : init (H:=store) ∅ "tok" (first_query "2" "4" "2") match_info
               = Return (session_of 4 2)) by (by vm_compute).
  split; [exact Hi|].
  apply (fresh_session_probe (H:=store) ∅ "tok" (first_query "2" "4" "2") match_info
           (session_of 4 2) (always 404) 0 Hi).
  vm_compute. discriminate.
Defined.

Lemma segmented_key_error_no_trace_witness :
  a_add_chunk (chunk_query 0 half five_gib 2) chunk0 (always 201)
              (session_of five_gib 2)
  = (Raise (KeyError "resumableChunkNUmber"), session_of five_gib 2, []).
Proof.
  apply (segmented_key_error_no_trace (chunk_query 0 half five_gib 2) chunk0
           (always 201) (session_of five_gib 2) "resumableChunkNUmber").
  - reflexivity.
  - by vm_compute.
Defined.

Lemma done_chunks_never_shrinks_witness :
  done_chunks after_chunk0
  ⊆ done_chunks (state_after (a_add_chunk (chunk_query' 1 half five_gib 2)
                                chunk1 (always 201) after_chunk0)).
Proof.
  destruct (done_chunks_never_shrinks (H:=store)) as (_ & _ & _ & Hadd & _).
  apply Hadd.
Defined.

Lemma monolithic_arrival_accounting_witness :
  let r := a_add_chunk (chunk_query' 1 2 4 2) chunk1 (always 201)
                       (session_of 4 2) in
  segmented (session_of 4 2) = false ∧
  result r = Return (Waiting 1) ∧
  done_chunks (state_after r) = done_chunks (session_of 4 2) ∧
  total_uploaded (state_after r) = total_uploaded (session_of 4 2).
Proof.
  cbv zeta. split; [reflexivity|]. split; [by vm_compute|].
  destruct (monolithic_arrival_accounting (chunk_query' 1 2 4 2) chunk1
              (always 201) (session_of 4 2) eq_refl) as (Hd & Hu & _).
  by split.
Defined.

Lemma queue_stays_bounded_witness :
  ∃ m, run (always 201) two_queued (start wide) = Some m ∧
       q_bounded (sess m).
Proof.
  destruct (run (always 201) two_queued (start wide)) as [m|] eqn:Hrun;
    [|vm_compute in Hrun; discriminate Hrun].
  exists m. split; [reflexivity|].
  apply (queue_stays_bounded (always 201) two_queued (start wide) m);
    [|exact Hrun].
  intros _. vm_compute. discriminate.
Defined.

Lemma generator_pops_least_witness :
  ∃ m' m'' seg,
    run (always 201) two_queued (start wide) = Some m' ∧
    (fst <$> q (sess m')) = [0; 1] ∧
    generate m' = Some m'' ∧ gen m'' = Reading 0 seg.
Proof.
  destruct (run (always 201) two_queued (start wide)) as [m'|] eqn:Hrun;
    [|vm_compute in Hrun; discriminate Hrun].
  assert (Hq : (λ m, fst <$> q (sess m)) <$> run (always 201) two_queued
                 (start wide) = Some [0; 1]) by (by vm_compute).
  assert (Hidle : gen <$> run (always 201) two_queued (start wide)
                  = Some Idle) by (by vm_compute).
  assert (Hsome : is_Some (run (always 201) two_queued (start wide)
                           ≫= generate))
    by (eexists; vm_compute; reflexivity).
  rewrite Hrun in Hq, Hidle, Hsome. cbn in Hq, Hidle, Hsome.
  injection Hq as Hq. injection Hidle as Hidle. destruct Hsome as [m'' Hgen].
  destruct (generator_pops_least (always 201) two_queued (start wide) m' m'')
    as (cn & seg & Hg & Hhead & _); try done.
  { constructor. }
  exists m', m'', seg. split; [reflexivity|]. split; [exact Hq|].
  split; [exact Hgen|]. rewrite Hhead in Hq. injection Hq as Hcn _.
  by rewrite <- Hcn.
Defined.

Lemma no_write_after_first_chunk_witness :
  ∃ m, run (always 201) chunk0_alone (start one_done) = Some m ∧
       sent m = [].
Proof.
  destruct (run (always 201) chunk0_alone (start one_done)) as [m|] eqn:Hrun;
    [|vm_compute in Hrun; discriminate Hrun].
  exists m. split; [reflexivity|].
  apply (no_write_after_first_chunk (always 201) chunk0_alone
           (start one_done) m); [reflexivity| |exact Hrun].
  intros He. assert (Hin : 1 ∈ done_chunks (sess (start one_done))).
  { apply (bool_decide_unpack _). by vm_compute. }
  rewrite He in Hin. by apply not_elem_of_empty in Hin.
Defined.


Lemma no_answer_without_consumer_witness :
  ∃ m, run (always 201) unconsumed (start (session_of 4 2)) = Some m ∧
       handlers m = [Return (Waiting 1);
                     Return (Putting 0 (chunk_query' 0 2 4 2) chunk0)] ∧
       done_chunks (sess m) = ∅ ∧ body m = [].
Proof.
  destruct (run (always 201) unconsumed (start (session_of 4 2)))
    as [m|] eqn:Hrun; [|vm_compute in Hrun; discriminate Hrun].
  exists m. split; [reflexivity|].
  assert (Hh : handlers <$> run (always 201) unconsumed
                 (start (session_of 4 2))
               = Some [Return (Waiting 1);
                       Return (Putting 0 (chunk_query' 0 2 4 2) chunk0)])
    by (by vm_compute).
  rewrite Hrun in Hh. injection Hh as Hh. split; [exact Hh|].
  destruct (no_answer_without_consumer (always 201) unconsumed
              (start (session_of 4 2)) m) as (Hd & _ & Hb & _).
  - reflexivity.
  - reflexivity.
  - unfold unconsumed. by repeat constructor.
  - exact Hrun.
  - by split.
Defined.
